(** * fullstack-chat-pdf: authentication callbacks and the file router

    A shallow embedding of [src/server/auth.ts] (the NextAuth options: the
    [session], [jwt] and [redirect] callbacks, the credentials provider's
    [authorize], the magic-link e-mail bodies) and of the tRPC file router
    ([fetchAll], [fetchFile], [deleteFile], [getFile]).

    Conventions.
    - A JavaScript string is a [string]; every literal the code compares
      against or inserts is ASCII, and [startsWith] and [replace] on a single
      ASCII character behave on the bytes of a well-formed string as they do
      on its code units.
    - A JavaScript object used as a record with an open set of fields (the
      JWT payload) is a [gmap string value].
    - Database tables are lists of rows; [findFirst]/[findUnique] is the
      first row that satisfies the [where] clause.
    - Handlers that read or write the database or call bcrypt run in a
      state-and-error monad [M] over a [World]. *)

From Stdlib Require Import Ascii String ZArith List Bool.
From stdpp Require Import base option list strings gmap fin_maps.

Local Open Scope bool_scope.

#[local] Arguments String.append !s1 s2 : simpl nomatch.

(* ===================================================================== *)
(** * JavaScript strings *)
(* ===================================================================== *)

Module Js.

(** [s.startsWith(p)] *)
Fixpoint startsWith (s p : string) {struct p} : bool :=
  match p with
  | EmptyString => true
  | String c p' =>
      match s with
      | EmptyString => false
      | String d s' => Ascii.eqb c d && startsWith s' p'
      end
  end.

(** [s.endsWith(p)], through the reversed strings. *)
Fixpoint rev (s : string) : string :=
  match s with
  | EmptyString => EmptyString
  | String c s' => rev s' +:+ String c EmptyString
  end.

Definition endsWith (s p : string) : bool := startsWith (rev s) (rev p).

(** [s.includes(c)] for a single character. *)
Fixpoint includesChar (c : ascii) (s : string) : bool :=
  match s with
  | EmptyString => false
  | String d s' => Ascii.eqb c d || includesChar c s'
  end.

(** The truthiness of a string: only the empty string is falsy. *)
Definition truthy (s : string) : bool :=
  match s with
  | EmptyString => false
  | String _ _ => true
  end.

(** [o || d] for an optional string [o]: [undefined], [null] and the empty
    string all fall through to [d]. *)
Definition orDefault (o : option string) (d : string) : string :=
  match o with
  | Some s => if truthy s then s else d
  | None => d
  end.

End Js.

(* ===================================================================== *)
(** * The redirect callback *)
(* ===================================================================== *)

Module Redirect.

Definition signoutPath : string := "/api/auth/signout".

(** [callbacks.redirect({ url, baseUrl })] *)
Definition redirect (url baseUrl : string) : string :=
  if Js.startsWith url (baseUrl +:+ signoutPath) then baseUrl
  else if Js.startsWith url baseUrl then url else baseUrl.

End Redirect.

(** The notion the specification words the guard with: the origin of an
    absolute URL, as [new URL(u).origin] gives it for a hierarchical URL:
    the scheme, [://] and the host with its port, without user information,
    path, query or fragment.  Case folding and the elision of a default port
    are left out; [None] stands for a string with no [scheme://] part, for
    which [new URL] throws. *)
Module Url.

Fixpoint takeUntil (stop : ascii -> bool) (s : string) : string :=
  match s with
  | EmptyString => EmptyString
  | String c s' => if stop c then EmptyString else String c (takeUntil stop s')
  end.

Fixpoint dropUntil (stop : ascii -> bool) (s : string) : string :=
  match s with
  | EmptyString => EmptyString
  | String c s' => if stop c then s else dropUntil stop s'
  end.

Fixpoint drop (n : nat) (s : string) : string :=
  match n, s with
  | S n', String _ s' => drop n' s'
  | _, _ => s
  end.

Definition isColon (c : ascii) : bool := Ascii.eqb c ":".

(** The characters that end the authority component. *)
Definition endsAuthority (c : ascii) : bool :=
  Ascii.eqb c "/" || Ascii.eqb c "?" || Ascii.eqb c "#".

(** What follows the last [@] of the authority (all of it when there is none). *)
Fixpoint afterLastAt (s : string) : string :=
  match s with
  | EmptyString => EmptyString
  | String c s' =>
      if Js.includesChar "@" s' then afterLastAt s'
      else if Ascii.eqb c "@" then s' else s
  end.

Definition origin (u : string) : option string :=
  let scheme := takeUntil isColon u in
  let rest := dropUntil isColon u in
  if Js.truthy scheme && Js.startsWith rest "://" then
    Some (scheme +:+ "://" +:+ afterLastAt (takeUntil endsAuthority (drop 3 rest)))
  else None.

(** [rest] can follow an origin without changing it: it is empty or opens a
    path, a query or a fragment. *)
Definition opensPath (rest : string) : bool :=
  match rest with
  | EmptyString => true
  | String c _ => endsAuthority c
  end.

End Url.

(* ===================================================================== *)
(** * The magic-link e-mail bodies *)
(* ===================================================================== *)

Module Email.

Record Theme := { brandColor : option string; buttonText : option string }.

Record HtmlParams := { url : string; host : string; theme : Theme }.

(** [s.replace(/c/g, by)] for a single literal character [c] and a
    replacement [by] that holds no [$] pattern. *)
Fixpoint replaceAllChar (c : ascii) (by_ : string) (s : string) : string :=
  match s with
  | EmptyString => EmptyString
  | String d s' =>
      if Ascii.eqb d c then by_ +:+ replaceAllChar c by_ s'
      else String d (replaceAllChar c by_ s')
  end.

(** [const escapedHost = host.replace(/\./g, "&#8203;.")] *)
Definition escapedHost (host : string) : string :=
  replaceAllChar "." "&#8203;." host.

Definition dq : string := String (ascii_of_nat 34) EmptyString.
Definition nl : string := String (ascii_of_nat 10) EmptyString.

(** [name="value"] *)
Definition attr (name value : string) : string :=
  name +:+ "=" +:+ dq +:+ value +:+ dq.

Record Color := {
  background : string;
  text_ : string;
  mainBackground : string;
  buttonBackground : string;
  buttonBorder : string;
  buttonText_ : string;
  secondaryText : string
}.

Definition color (t : Theme) : Color :=
  let brand := Js.orDefault (brandColor t) "#3567e2" in
  {| background := "#f3f4f6";
     text_ := "#1f2937";
     mainBackground := "#ffffff";
     buttonBackground := brand;
     buttonBorder := brand;
     buttonText_ := Js.orDefault (buttonText t) "#ffffff";
     secondaryText := "#6b7280" |}.

Definition fullWidthTable : string :=
  "<table " +:+ attr "width" "100%" +:+ " " +:+ attr "border" "0" +:+ " "
  +:+ attr "cellspacing" "0" +:+ " " +:+ attr "cellpadding" "0" +:+ ">".

Definition boxShadow : string :=
  "box-shadow: 0 4px 6px -1px rgba(0, 0, 0, 0.1), 0 2px 4px -1px rgba(0, 0, 0, 0.06);".

(** The part of the body before the host. *)
Definition htmlHead (c : Color) : string :=
  nl +:+
  "<body " +:+ attr "style" ("background: " +:+ background c +:+ "; margin: 0; padding: 20px; font-family: -apple-system, BlinkMacSystemFont, 'Segoe UI', Roboto, 'Helvetica Neue', Arial, sans-serif;") +:+ ">" +:+ nl +:+
  "  " +:+ fullWidthTable +:+ nl +:+
  "    <tr>" +:+ nl +:+
  "      <td " +:+ attr "align" "center" +:+ ">" +:+ nl +:+
  "        <table " +:+ attr "style" ("background: " +:+ mainBackground c +:+ "; max-width: 600px; width: 100%; border-radius: 16px; " +:+ boxShadow) +:+ ">" +:+ nl +:+
  "          <tr>" +:+ nl +:+
  "            <td " +:+ attr "style" "padding: 40px 48px;" +:+ ">" +:+ nl +:+
  "              " +:+ fullWidthTable +:+ nl +:+
  "                <tr>" +:+ nl +:+
  "                  <td>" +:+ nl +:+
  "                    <h1 " +:+ attr "style" ("margin: 0 0 24px; font-size: 24px; font-weight: 600; color: " +:+ text_ c +:+ "; text-align: center;") +:+ ">" +:+ nl +:+
  "                      Welcome to ".

(** The part of the body after the host. *)
Definition htmlTail (u : string) (c : Color) : string :=
  nl +:+
  "                    </h1>" +:+ nl +:+
  "                    <p " +:+ attr "style" ("margin: 0 0 24px; font-size: 16px; line-height: 24px; color: " +:+ secondaryText c +:+ "; text-align: center;") +:+ ">" +:+ nl +:+
  "                      Click the button below to sign in to your account." +:+ nl +:+
  "                    </p>" +:+ nl +:+
  "                  </td>" +:+ nl +:+
  "                </tr>" +:+ nl +:+
  "                <tr>" +:+ nl +:+
  "                  <td " +:+ attr "align" "center" +:+ " " +:+ attr "style" "padding: 16px 0 32px;" +:+ ">" +:+ nl +:+
  "                    <a " +:+ attr "href" u +:+ " " +:+ nl +:+
  "                      " +:+ attr "target" "_blank" +:+ nl +:+
  "                      " +:+ attr "style" ("display: inline-block; padding: 14px 32px; font-size: 16px; font-weight: 500; color: " +:+ buttonText_ c +:+ "; background: " +:+ buttonBackground c +:+ "; border-radius: 8px; text-decoration: none; transition: all 0.2s; " +:+ boxShadow) +:+ ">" +:+ nl +:+
  "                      Sign in to your account" +:+ nl +:+
  "                    </a>" +:+ nl +:+
  "                  </td>" +:+ nl +:+
  "                </tr>" +:+ nl +:+
  "                <tr>" +:+ nl +:+
  "                  <td>" +:+ nl +:+
  "                    <p " +:+ attr "style" ("margin: 0; font-size: 14px; line-height: 20px; color: " +:+ secondaryText c +:+ "; text-align: center;") +:+ ">" +:+ nl +:+
  "                      If you didn't request this email, you can safely ignore it." +:+ nl +:+
  "                    </p>" +:+ nl +:+
  "                  </td>" +:+ nl +:+
  "                </tr>" +:+ nl +:+
  "              </table>" +:+ nl +:+
  "            </td>" +:+ nl +:+
  "          </tr>" +:+ nl +:+
  "        </table>" +:+ nl +:+
  "      </td>" +:+ nl +:+
  "    </tr>" +:+ nl +:+
  "  </table>" +:+ nl +:+
  "</body>" +:+ nl.

(** [function html(params)] *)
Definition html (params : HtmlParams) : string :=
  let c := color (theme params) in
  htmlHead c +:+ "<strong>" +:+ escapedHost (host params) +:+ "</strong>"
  +:+ htmlTail (url params) c.

(** [function text({ url, host })] *)
Definition text (u h : string) : string :=
  "Sign in to " +:+ h +:+ nl +:+ u +:+ nl +:+ nl.

(** [labels.join(sep)] *)
Fixpoint join (sep : string) (labels : list string) : string :=
  match labels with
  | [] => EmptyString
  | [l] => l
  | l :: ls => l +:+ sep +:+ join sep ls
  end.

(** The labels of a host: [host.split(".")]. *)
Fixpoint labelsOf (host : string) : list string :=
  match host with
  | EmptyString => [EmptyString]
  | String c s =>
      if Ascii.eqb c "." then EmptyString :: labelsOf s
      else match labelsOf s with
           | l :: ls => String c l :: ls
           | [] => [String c EmptyString]
           end
  end.

(** The rendering the specification words: the marker after each dot. *)
Definition markerAfterEachDot (host : string) : string :=
  replaceAllChar "." ".&#8203;" host.

End Email.

(* ===================================================================== *)
(** * The database and the monad of the request handlers *)
(* ===================================================================== *)

(** A row of the [User] table, with the columns the code reads. *)
Record User := {
  user_id : string;
  user_email : string;
  user_name : option string;
  hashedPassword : option string
}.

(** A row of the [File] table. *)
Record File := {
  file_id : string;
  file_userId : string;
  file_key : string;
  file_name : string
}.

Inductive TRPCCode := NOT_FOUND | UNAUTHORIZED.

(** What a handler throws. *)
Inductive Exn :=
  | TRPCError (code : TRPCCode)
  | Error (message : string)
  | PrismaRecordNotFound.

(** The tables, and the calls made to bcrypt's [compare] so far, oldest
    first, each with its plaintext and its hash. *)
Record World := {
  users : list User;
  files : list File;
  compared : list (string * string)
}.

Definition M (A : Type) : Type := World -> (Exn + A) * World.

#[global] Instance M_ret : MRet M := fun A (a : A) w => (inr a, w).

#[global] Instance M_bind : MBind M := fun A B (k : A -> M B) (c : M A) w =>
  match c w with
  | (inl e, w') => (inl e, w')
  | (inr a, w') => k a w'
  end.

Definition throw {A : Type} (e : Exn) : M A := fun w => (inl e, w).

Definition eqs (a b : string) : bool := bool_decide (a = b).

(* ===================================================================== *)
(** * The file router *)
(* ===================================================================== *)

Module FileRouter.

(** [ctx.db.file.findMany({ where })] *)
Definition findMany (where_ : File -> bool) : M (list File) :=
  fun w => (inr (List.filter where_ (files w)), w).

(** [ctx.db.file.findFirst({ where })] *)
Definition findFirst (where_ : File -> bool) : M (option File) :=
  fun w => (inr (List.find where_ (files w)), w).

(** [ctx.db.file.delete({ where: { id } })]: the row with this key goes;
    Prisma throws when there is none. *)
Definition delete (id : string) : M unit :=
  fun w =>
    if List.existsb (fun f => eqs (file_id f) id) (files w) then
      (inr tt, {| users := users w;
                  files := List.filter (fun f => negb (eqs (file_id f) id)) (files w);
                  compared := compared w |})
    else (inl PrismaRecordNotFound, w).

(** Each procedure is a [protectedProcedure]: its body runs with
    [caller = ctx.session.user.id] of an authenticated session. *)

Definition fetchAll (caller : string) : M (list File) :=
  findMany (fun f => eqs (file_userId f) caller).

Definition fetchFile (caller : string) (id : string) : M File :=
  file ← findFirst (fun f => eqs (file_id f) id);
  match file with
  | None => throw (TRPCError NOT_FOUND)
  | Some f => mret f
  end.

Definition deleteFile (caller : string) (id : string) : M File :=
  file ← findFirst (fun f => eqs (file_id f) id && eqs (file_userId f) caller);
  match file with
  | None => throw (TRPCError NOT_FOUND)
  | Some f => _ ← delete id; mret f
  end.

Definition getFile (caller : string) (key : string) : M File :=
  file ← findFirst (fun f => eqs (file_key f) key && eqs (file_userId f) caller);
  match file with
  | None => throw (TRPCError NOT_FOUND)
  | Some f => mret f
  end.

(** [id] is the primary key of the table. *)
Definition primaryKey (w : World) : Prop := NoDup (List.map file_id (files w)).

End FileRouter.

(* ===================================================================== *)
(** * The credentials provider *)
(* ===================================================================== *)

Module Auth.

(** The submitted form; a field the client left out is [None]. *)
Record Credentials := {
  email : option string;
  password : option string
}.

(** [!o] is false: the field is there and not empty. *)
Definition present (o : option string) : option string :=
  match o with
  | Some s => if Js.truthy s then Some s else None
  | None => None
  end.

Definition emailAndPasswordRequired : string := "Email and password required".
Definition emailDoesNotExist : string := "Email does not exist".
Definition incorrectPassword : string := "Incorrect password".

(** [db.user.findUnique({ where: { email } })] *)
Definition findUnique (e : string) : M (option User) :=
  fun w => (inr (List.find (fun u => eqs (user_email u) e) (users w)), w).

Section Bcrypt.

(** bcrypt's [compare(data, encrypted)]. *)
Variable bcrypt : string -> string -> bool.

Definition compare (data encrypted : string) : M bool :=
  fun w => (inr (bcrypt data encrypted),
            {| users := users w; files := files w;
               compared := compared w ++ [(data, encrypted)] |}).

(** [async authorize(credentials)] *)
Definition authorize (credentials : option Credentials) : M User :=
  match credentials ≫= (fun c : Credentials => present (email c)),
        credentials ≫= (fun c : Credentials => present (password c)) with
  | Some e, Some p =>
      user ← findUnique e;
      match user with
      | None => throw (Error emailDoesNotExist)
      | Some u =>
          match present (hashedPassword u) with
          | None => throw (Error emailDoesNotExist)
          | Some h =>
              isCorrectPassword ← compare p h;
              if (isCorrectPassword : bool) then mret u
              else throw (Error incorrectPassword)
          end
      end
  | _, _ => throw (Error emailAndPasswordRequired)
  end.

End Bcrypt.

(** [complete credentials e p]: the form came with the e-mail [e] and
    the password [p], neither of them empty. *)
Definition complete (credentials : option Credentials) (e p : string) : Prop :=
  exists c, credentials = Some c
            /\ present (email c) = Some e /\ present (password c) = Some p.

(** The causes of a rejection that the specification tells apart. *)
Inductive Cause := UnknownAccount | MissingCredential | WrongPassword.

(** [cause bcrypt w e p c]: with complete credentials [e], [p], the sign-in
    is rejected in world [w] for the cause [c]. *)
Definition cause (bcrypt : string -> string -> bool) (w : World)
    (e p : string) (c : Cause) : Prop :=
  match List.find (fun u => eqs (user_email u) e) (users w) with
  | None => c = UnknownAccount
  | Some u =>
      match present (hashedPassword u) with
      | None => c = MissingCredential
      | Some h => bcrypt p h = false /\ c = WrongPassword
      end
  end.

End Auth.

(* ===================================================================== *)
(** * The session callbacks *)
(* ===================================================================== *)

Module Session.

(** The values a claim of the token or a field of the session user holds. *)
Inductive value := VUndefined | VNull | VString (s : string).

#[global] Instance value_eq_dec : EqDecision value.
Proof. solve_decision. Defined.

Definition ofNullable (o : option string) : value :=
  match o with
  | Some s => VString s
  | None => VNull
  end.

(** next-auth's [User]: what [authorize] or the adapter hands to [jwt]. *)
Record AuthUser := {
  id : string;
  name : value;
  email : value;
  image : value
}.

Definition ofRow (u : User) : AuthUser :=
  {| id := user_id u;
     name := ofNullable (user_name u);
     email := VString (user_email u);
     image := VUndefined |}.

(** The JWT payload: an object with an open set of claims. *)
Abbreviation JWT := (gmap string value).

(** [token.k]: a claim that is not there reads as [undefined]. *)
Definition get (token : JWT) (k : string) : value :=
  default VUndefined (token !! k).

Record SessionUser := {
  su_name : value;
  su_email : value;
  su_image : value;
  su_id : value
}.

Record Session := {
  user : option SessionUser;
  expires : string
}.

(** [session({ session, token })] *)
Definition session (s : Session) (token : JWT) : Session :=
  match user s with
  | Some u =>
      {| user := Some {| su_name := get token "name";
                         su_email := su_email u;
                         su_image := su_image u;
                         su_id := get token "id" |};
         expires := expires s |}
  | None => s
  end.

(** [async jwt({ token, user })] *)
Definition jwt (token : JWT) (u : option AuthUser) : JWT :=
  match u with
  | Some u => <["id" := VString (id u)]> (<["name" := name u]> token)
  | None => token
  end.

(** [session: { strategy: "jwt", maxAge: 2592000 * 3 }], in seconds. *)
Definition maxAge : Z := 2592000 * 3.

End Session.

(* ===================================================================== *)
(** * Notions used to state the properties *)
(* ===================================================================== *)

(** The number of occurrences of the character [c] in [s]. *)
Fixpoint countChar (c : ascii) (s : string) : nat :=
  match s with
  | EmptyString => 0
  | String d s' => (if Ascii.eqb d c then 1 else 0) + countChar c s'
  end.

(** The line feed. *)
Definition lf : ascii := ascii_of_nat 10.

(** The store once the rows with the id [id] are gone. *)
Definition without (id : string) (w : World) : World :=
  {| users := users w;
     files := List.filter (fun g => negb (eqs (file_id g) id)) (files w);
     compared := compared w |}.

(** The store after one call to bcrypt. *)
Definition afterCompare (w : World) (p h : string) : World :=
  {| users := users w; files := files w; compared := compared w ++ [(p, h)] |}.

(* ===================================================================== *)
(** * Sending the magic link *)
(* ===================================================================== *)

Module Mailer.

(** The options handed to [transport.sendMail]. *)
Record Message := {
  to : string;
  from : string;
  subject : string;
  text : string;
  html : string
}.

(** What [sendMail] resolves to; [rejected] may be missing. *)
Record SentMessageInfo := { rejected : option (list string) }.

(** The object literal handed to [sendMail]. *)
Definition messageOf (identifier url providerFrom : string)
    (theme : Email.Theme) (host : string) : Message :=
  {| to := identifier;
     from := providerFrom;
     subject := "Sign in to " +:+ host;
     text := Email.text url host;
     html := Email.html {| Email.url := url; Email.host := host;
                           Email.theme := theme |} |}.

Section Transport.

(** [new URL(url).host], or what the constructor throws. *)
Variable hostOf : string -> Exn + string.

(** [createTransport(provider.server).sendMail], or what it rejects with. *)
Variable sendMail : Message -> Exn + SentMessageInfo.

(** [result.rejected?.filter(Boolean) || []] *)
Definition failedOf (result : SentMessageInfo) : list string :=
  match rejected result with
  | Some addresses => List.filter Js.truthy addresses
  | None => []
  end.

Definition couldNotBeSent (failed : list string) : string :=
  "Email(s) (" +:+ Email.join ", " failed +:+ ") could not be sent".

(** [async function sendVerificationRequest(params)]: the messages handed
    to the transport, and how the call ends. *)
Definition sendVerificationRequest (identifier url providerFrom : string)
    (theme : Email.Theme) : list Message * (Exn + unit) :=
  match hostOf url with
  | inl e => ([], inl e)
  | inr host =>
      let message := messageOf identifier url providerFrom theme host in
      match sendMail message with
      | inl e => ([message], inl e)
      | inr result =>
          match failedOf result with
          | [] => ([message], inr tt)
          | failed => ([message], inl (Error (couldNotBeSent failed)))
          end
      end
  end.

End Transport.

End Mailer.

(* ===================================================================== *)
(** * The sign-in form *)
(* ===================================================================== *)

Module AuthForm.

(** The state of the component: one field for each [useState]. *)
Record State := {
  name : string;
  email : string;
  password : string;
  variant : string;
  isEmailSent : bool;
  isEmailAuth : bool
}.

Definition initial : State :=
  {| name := EmptyString; email := EmptyString; password := EmptyString;
     variant := "login"; isEmailSent := false; isEmailAuth := false |}.

(** What a handler does besides setting state, in the order it does it. *)
Inductive Effect :=
  | SignIn (provider : string) (email : string) (password : option string)
  | ToastError (message : string)
  | ToastSuccess (message : string)
  | Navigate (href : string).

(** What [signIn] resolves to: [res?.error]. *)
Record SignInResponse := { error : option string }.

(** How a promise settles. *)
Inductive Settled (A : Type) :=
  | Resolved (a : A)
  | Rejected.

Arguments Resolved {A} a.
Arguments Rejected {A}.

(** [res?.error], when it is truthy. *)
Definition errorOf (res : option SignInResponse) : option string :=
  res ≫= (fun r : SignInResponse => Auth.present (error r)).

(** The three views of the component. *)
Inductive View := CheckYourEmail | EmailLinkForm | CredentialsForm.

Definition view (st : State) : View :=
  if isEmailSent st then CheckYourEmail
  else if isEmailAuth st then EmailLinkForm else CredentialsForm.

(** The title of the dialog when the e-mail has not been sent. *)
Definition title (st : State) : string :=
  if eqs (variant st) "login" then "Sign in" else "Register".

(** [toggleVariant] *)
Definition toggleVariant (st : State) : State :=
  {| name := name st; email := email st; password := password st;
     variant := if eqs (variant st) "login" then "register" else "login";
     isEmailSent := false; isEmailAuth := false |}.

Section Handlers.

(** [validateInputs({ email, password })] of [~/lib/utils]. *)
Variable validateInputs : string -> string -> bool.

(** [signIn(provider, options)] of [next-auth/react]. *)
Variable signIn : string -> string -> option string -> Settled (option SignInResponse).

(** The toast for a sign-in that came back with the error [e]. *)
Definition loginErrorToast (e : string) : string :=
  if eqs e "Email does not exist" then "Email does not exist, please try again"
  else if eqs e "Incorrect password" then "Incorrect password, please try again"
  else e.

(** [login] *)
Definition login (st : State) : list Effect :=
  if negb (validateInputs (email st) (password st)) then []
  else
    SignIn "credentials" (email st) (Some (password st)) ::
    match signIn "credentials" (email st) (Some (password st)) with
    | Resolved res =>
        match errorOf res with
        | Some e => [ToastError (loginErrorToast e)]
        | None => [ToastSuccess "Login successfully"; Navigate "/dashboard"]
        end
    | Rejected => [ToastError "Login failed"]
    end.

(** [handleEmailAuth] *)
Definition handleEmailAuth (st : State) : State * list Effect :=
  if negb (Js.truthy (email st)) then (st, [ToastError "Please enter your email"])
  else
    match signIn "email" (email st) None with
    | Resolved result =>
        match errorOf result with
        | Some e => (st, [SignIn "email" (email st) None; ToastError e])
        | None =>
            ({| name := name st; email := email st; password := password st;
                variant := variant st; isEmailSent := true;
                isEmailAuth := isEmailAuth st |},
             [SignIn "email" (email st) None;
              ToastSuccess "Login link sent to your email!"])
        end
    | Rejected =>
        (st, [SignIn "email" (email st) None; ToastError "Failed to send login email"])
    end.

End Handlers.

End AuthForm.

(* ===================================================================== *)
(** * Sample data *)
(* ===================================================================== *)

Definition alice_report : File :=
  {| file_id := "f1"; file_userId := "alice"; file_key := "k1"; file_name := "report.pdf" |}.

Definition bob_notes : File :=
  {| file_id := "f2"; file_userId := "bob"; file_key := "k2"; file_name := "notes.pdf" |}.

Definition two_files : World :=
  {| users := []; files := [alice_report; bob_notes]; compared := [] |}.

Definition hashOf (pw : string) : string := "$2b$10$" +:+ pw.

(** A stand-in for bcrypt on the sample data: the hash of [pw] is [hashOf pw]. *)
Definition sampleBcrypt (data encrypted : string) : bool :=
  eqs (hashOf data) encrypted.

Definition carol : User :=
  {| user_id := "u1"; user_email := "carol@example.com";
     user_name := Some "Carol"; hashedPassword := Some (hashOf "s3cret") |}.

(** An account created through OAuth: no password hash. *)
Definition dave : User :=
  {| user_id := "u2"; user_email := "dave@example.com";
     user_name := Some "Dave"; hashedPassword := None |}.

Definition two_users : World :=
  {| users := [carol; dave]; files := []; compared := [] |}.

Definition no_users : World :=
  {| users := []; files := []; compared := [] |}.

Definition signIn (e p : string) : option Auth.Credentials :=
  Some {| Auth.email := Some e; Auth.password := Some p |}.

Definition freshSession : Session.Session :=
  {| Session.user := Some {| Session.su_name := Session.VUndefined;
                             Session.su_email := Session.VString "carol@example.com";
                             Session.su_image := Session.VUndefined;
                             Session.su_id := Session.VUndefined |};
     Session.expires := "2026-01-01T00:00:00.000Z" |}.

Definition sampleToken : gmap string Session.value :=
  {[ "sub" := Session.VString "u1"; "email" := Session.VString "carol@example.com" ]}.

(** A URL parser for the sample data: the host of an [https] URL without
    user information. *)
Definition sampleHostOf (u : string) : Exn + string :=
  if Js.startsWith u "https://" then
    inr (Url.takeUntil Url.endsAuthority (Url.drop 8 u))
  else inl (Error "Invalid URL").

(** A transport that rejects the addresses at [bounce.example]. *)
Definition sampleSendMail (m : Mailer.Message) : Exn + Mailer.SentMessageInfo :=
  if Js.endsWith (Mailer.to m) "@bounce.example" then
    inr {| Mailer.rejected := Some [EmptyString; Mailer.to m] |}
  else inr {| Mailer.rejected := Some [] |}.

Definition noTheme : Email.Theme :=
  {| Email.brandColor := None; Email.buttonText := None |}.

Definition magicLink : string :=
  "https://app.example.com/api/auth/callback/email?token=t".

(** A validation that asks for both fields. *)
Definition sampleValidate (e p : string) : bool := Js.truthy e && Js.truthy p.

(** A [signIn] that knows one account and always sends the magic link. *)
Definition sampleSignIn (provider e : string) (p : option string)
    : AuthForm.Settled (option AuthForm.SignInResponse) :=
  if eqs provider "email" then
    AuthForm.Resolved (Some {| AuthForm.error := None |})
  else if eqs e "carol@example.com" then
    if bool_decide (p = Some "s3cret") then
      AuthForm.Resolved (Some {| AuthForm.error := None |})
    else AuthForm.Resolved (Some {| AuthForm.error := Some "Incorrect password" |})
  else AuthForm.Resolved (Some {| AuthForm.error := Some "Email does not exist" |}).

Definition carolTyped : AuthForm.State :=
  {| AuthForm.name := EmptyString; AuthForm.email := "carol@example.com";
     AuthForm.password := "s3cret"; AuthForm.variant := "login";
     AuthForm.isEmailSent := false; AuthForm.isEmailAuth := false |}.

(* ===================================================================== *)
(** * Strings: prefixes *)
(* ===================================================================== *)

Section Prefixes.

Import Js.

Lemma startsWith_app (p r : string) : startsWith (p +:+ r) p = true.
Proof.
  induction p as [|c p IH]; simpl; [reflexivity|].
  now rewrite Ascii.eqb_refl.
Qed.

Lemma startsWith_app_same (a s p : string) :
  startsWith (a +:+ s) (a +:+ p) = startsWith s p.
Proof.
  induction a as [|c a IH]; simpl; [reflexivity|].
  now rewrite Ascii.eqb_refl.
Qed.

Lemma startsWith_split (s p : string) :
  startsWith s p = true -> exists r, s = p +:+ r.
Proof.
  revert s; induction p as [|c p IH]; intros s H; simpl in *.
  - now exists s.
  - destruct s as [|d s]; [discriminate|].
    apply andb_prop in H as [Hc Hp].
    apply Ascii.eqb_eq in Hc; subst d.
    destruct (IH _ Hp) as [r ->]. now exists r.
Qed.

Lemma startsWith_iff (s p : string) :
  startsWith s p = true <-> exists r, s = p +:+ r.
Proof.
  split; [apply startsWith_split|].
  intros [r ->]. apply startsWith_app.
Qed.

Lemma append_assoc (a b c : string) : (a +:+ b) +:+ c = a +:+ (b +:+ c).
Proof. induction a as [|x a IH]; simpl; congruence. Qed.

Lemma append_nil_r (a : string) : a +:+ EmptyString = a.
Proof. induction a as [|x a IH]; simpl; congruence. Qed.

(** A string that starts with [p +:+ q] starts with [p]. *)
Lemma startsWith_shorter (s p q : string) :
  startsWith s (p +:+ q) = true -> startsWith s p = true.
Proof.
  intros H. apply startsWith_split in H as [r ->].
  rewrite append_assoc. apply startsWith_app.
Qed.

End Prefixes.

(* ===================================================================== *)
(** * Origins *)
(* ===================================================================== *)

Section Origins.

Import Js Url.

Lemma takeUntil_app_found (stop : ascii -> bool) (s r : string) :
  truthy (dropUntil stop s) = true ->
  takeUntil stop (s +:+ r) = takeUntil stop s.
Proof.
  induction s as [|c s IH]; simpl; [discriminate|].
  destruct (stop c); [reflexivity|].
  intros H. now rewrite IH.
Qed.

Lemma dropUntil_app_found (stop : ascii -> bool) (s r : string) :
  truthy (dropUntil stop s) = true ->
  dropUntil stop (s +:+ r) = dropUntil stop s +:+ r.
Proof.
  induction s as [|c s IH]; simpl; [discriminate|].
  destruct (stop c); [reflexivity|].
  apply IH.
Qed.

Lemma takeUntil_app_opens (s r : string) :
  opensPath r = true ->
  takeUntil endsAuthority (s +:+ r) = takeUntil endsAuthority s.
Proof.
  intros Hr. induction s as [|c s IH]; simpl.
  - destruct r as [|d r]; simpl in *; [reflexivity|now rewrite Hr].
  - destruct (endsAuthority c); [reflexivity|now rewrite IH].
Qed.

Lemma startsWith_truthy (s p : string) :
  truthy p = true -> startsWith s p = true -> truthy s = true.
Proof. destruct p, s; simpl; congruence. Qed.

(** Appending a path, a query or a fragment to an absolute URL keeps its
    origin. *)
Lemma origin_app (base rest : string) :
  is_Some (origin base) -> opensPath rest = true ->
  origin (base +:+ rest) = origin base.
Proof.
  intros [o Ho] Hr. unfold origin in *.
  destruct (truthy (takeUntil isColon base)) eqn:Hs; [|discriminate].
  destruct (startsWith (dropUntil isColon base) "://") eqn:Hp; [|discriminate].
  simpl in Ho. clear Ho.
  assert (Hd : truthy (dropUntil isColon base) = true)
    by (eapply startsWith_truthy; [|exact Hp]; reflexivity).
  rewrite (takeUntil_app_found _ _ _ Hd), (dropUntil_app_found _ _ _ Hd), Hs.
  apply startsWith_split in Hp as [a Ha]. rewrite Ha.
  rewrite append_assoc, startsWith_app. simpl.
  now rewrite takeUntil_app_opens.
Qed.

End Origins.

(* ===================================================================== *)
(** * The redirect guard *)
(* ===================================================================== *)

Section RedirectGuard.

Import Js Url Redirect.

Lemma redirect_not_prefixed (url baseUrl : string) :
  startsWith url baseUrl = false -> redirect url baseUrl = baseUrl.
Proof.
  intros H. unfold redirect. rewrite H.
  now destruct (startsWith url (baseUrl +:+ signoutPath)).
Qed.

Lemma redirect_prefixed (url baseUrl : string) :
  startsWith url baseUrl = true ->
  startsWith url (baseUrl +:+ signoutPath) = false ->
  redirect url baseUrl = url.
Proof. intros H1 H2. unfold redirect. now rewrite H2, H1. Qed.

Lemma redirect_signout (url baseUrl : string) :
  startsWith url (baseUrl +:+ signoutPath) = true -> redirect url baseUrl = baseUrl.
Proof. intros H. unfold redirect. now rewrite H. Qed.

(** The guard answers with one of its two arguments. *)
Lemma redirect_cases (url baseUrl : string) :
  redirect url baseUrl = url \/ redirect url baseUrl = baseUrl.
Proof.
  unfold redirect.
  destruct (startsWith url (baseUrl +:+ signoutPath)); [now right|].
  destruct (startsWith url baseUrl); [now left|now right].
Qed.

(** What the guard lets through starts with the base URL. *)
Lemma redirect_startsWith (url baseUrl : string) :
  startsWith (redirect url baseUrl) baseUrl = true.
Proof.
  unfold redirect.
  destruct (startsWith url (baseUrl +:+ signoutPath)).
  - rewrite <- (append_nil_r baseUrl) at 1. apply startsWith_app.
  - destruct (startsWith url baseUrl) eqn:H; [exact H|].
    rewrite <- (append_nil_r baseUrl) at 1. apply startsWith_app.
Qed.

End RedirectGuard.

Example redirect_same_site :
  Redirect.redirect "https://example.com/dashboard" "https://example.com"
  = "https://example.com/dashboard".
Proof. reflexivity. Qed.

Example redirect_other_site :
  Redirect.redirect "https://evil.org/dashboard" "https://example.com"
  = "https://example.com".
Proof. reflexivity. Qed.

Example redirect_relative :
  Redirect.redirect "/dashboard" "https://example.com" = "https://example.com".
Proof. reflexivity. Qed.

Example redirect_signout_query :
  Redirect.redirect "https://example.com/api/auth/signout?callbackUrl=https://evil.org"
                    "https://example.com"
  = "https://example.com".
Proof. reflexivity. Qed.

Example origin_strips_path :
  Url.origin "https://user@example.com:8080/a/b?c#d" = Some "https://example.com:8080".
Proof. reflexivity. Qed.

Example origin_relative : Url.origin "/dashboard" = None.
Proof. reflexivity. Qed.

(** C1, as the specification states it, fails: a URL on another host whose
    text begins with the base URL has a different origin and still passes
    the guard unchanged. *)
Lemma redirect_origin_counterexample :
  let url := "https://example.com.evil.org/" in
  let baseUrl := "https://example.com" in
  Url.origin url = Some "https://example.com.evil.org"
  /\ Url.origin baseUrl = Some "https://example.com"
  /\ Url.origin url <> Url.origin baseUrl
  /\ Redirect.redirect url baseUrl = url
  /\ Redirect.redirect url baseUrl <> baseUrl.
Proof. cbv zeta. repeat split; try reflexivity; intros H; discriminate H. Qed.

(** C1 (amended): the guard compares the text of the two URLs.  A URL that
    does not start with the base URL, so every URL of another origin but
    those whose text extends the base URL, is answered with the base URL;
    the base URL followed by nothing or by a path, a query or a fragment
    other than the sign-out endpoint is same-origin and is answered
    unchanged. *)
Theorem redirect_guard (url baseUrl : string) :
  (Js.startsWith url baseUrl = false -> Redirect.redirect url baseUrl = baseUrl)
  /\ (forall rest,
        url = baseUrl +:+ rest ->
        Url.opensPath rest = true ->
        is_Some (Url.origin baseUrl) ->
        Js.startsWith url (baseUrl +:+ Redirect.signoutPath) = false ->
        Url.origin url = Url.origin baseUrl
        /\ Redirect.redirect url baseUrl = url).
Proof.
  split; [apply redirect_not_prefixed|].
  intros rest -> Hr Ho Hs. split.
  - now apply origin_app.
  - apply redirect_prefixed; [apply startsWith_app|exact Hs].
Qed.

Lemma redirect_guard_witness :
  (Js.startsWith "https://evil.org/x" "https://example.com" = false
   /\ Redirect.redirect "https://evil.org/x" "https://example.com" = "https://example.com")
  /\ (Url.origin "https://example.com/dashboard?tab=1" = Url.origin "https://example.com"
      /\ Redirect.redirect "https://example.com/dashboard?tab=1" "https://example.com"
         = "https://example.com/dashboard?tab=1").
Proof.
  split.
  - split; [reflexivity|].
    apply (proj1 (redirect_guard "https://evil.org/x" "https://example.com")).
    reflexivity.
  - apply (proj2 (redirect_guard "https://example.com/dashboard?tab=1" "https://example.com")
             "/dashboard?tab=1"); try reflexivity.
    exists "https://example.com". reflexivity.
Defined.

(** C5, as the specification states it, fails: a same-origin URL whose path
    ends in the sign-out path under another directory, and a URL on another
    host whose text extends the base URL and whose path is the sign-out
    path, both pass the guard unchanged. *)
Lemma redirect_signout_counterexample :
  let baseUrl := "https://example.com" in
  let inner := "https://example.com/docs/api/auth/signout" in
  let outer := "https://example.com.evil.org/api/auth/signout" in
  (Js.endsWith inner Redirect.signoutPath = true
   /\ Url.origin inner = Url.origin baseUrl
   /\ Redirect.redirect inner baseUrl = inner
   /\ Redirect.redirect inner baseUrl <> baseUrl)
  /\ (Js.endsWith outer Redirect.signoutPath = true
      /\ Redirect.redirect outer baseUrl = outer
      /\ Redirect.redirect outer baseUrl <> baseUrl).
Proof. cbv zeta. repeat split; try reflexivity; intros H; discriminate H. Qed.

(** C5 (amended): every callback URL that starts with the base URL followed
    by the sign-out path, whatever comes after it, is answered with the bare
    base URL, although such a URL is same-origin with the base URL. *)
Theorem redirect_signout_endpoint (baseUrl rest : string) :
  Redirect.redirect (baseUrl +:+ Redirect.signoutPath +:+ rest) baseUrl = baseUrl
  /\ (is_Some (Url.origin baseUrl) ->
      Url.origin (baseUrl +:+ Redirect.signoutPath +:+ rest) = Url.origin baseUrl).
Proof.
  split.
  - apply redirect_signout.
    rewrite <- append_assoc. apply startsWith_app.
  - intros Ho. now apply origin_app.
Qed.

Lemma redirect_signout_endpoint_witness :
  Redirect.redirect "https://example.com/api/auth/signout?callbackUrl=https://evil.org"
                    "https://example.com" = "https://example.com"
  /\ Url.origin "https://example.com/api/auth/signout?callbackUrl=https://evil.org"
     = Url.origin "https://example.com".
Proof.
  destruct (redirect_signout_endpoint "https://example.com" "?callbackUrl=https://evil.org")
    as [H1 H2].
  split; [exact H1|].
  apply H2. exists "https://example.com". reflexivity.
Defined.

(* ===================================================================== *)
(** * The file router: lookups by key *)
(* ===================================================================== *)

Section Tables.

Context {Row : Type} (key : Row -> string).

Lemma eqs_true (a b : string) : eqs a b = true <-> a = b.
Proof. unfold eqs. apply bool_decide_eq_true. Qed.

Lemma eqs_false (a b : string) : eqs a b = false <-> a <> b.
Proof. unfold eqs. apply bool_decide_eq_false. Qed.

Lemma eqs_refl (a : string) : eqs a a = true.
Proof. now apply eqs_true. Qed.

(** Two rows of a table with the same key are the same row. *)
Lemma unique_key_inj (rows : list Row) (a b : Row) :
  NoDup (List.map key rows) -> In a rows -> In b rows -> key a = key b -> a = b.
Proof.
  induction rows as [|r rows IH]; simpl; [tauto|].
  intros Hnd Ha Hb Hk.
  apply NoDup_cons in Hnd as [Hr Hnd].
  rewrite list_elem_of_In in Hr.
  destruct Ha as [->|Ha], Hb as [->|Hb].
  - reflexivity.
  - exfalso. apply Hr. rewrite Hk. now apply in_map.
  - exfalso. apply Hr. rewrite <- Hk. now apply in_map.
  - now apply IH.
Qed.

(** Looking a row up by its key finds that row. *)
Lemma find_by_key (rows : list Row) (a : Row) :
  NoDup (List.map key rows) -> In a rows ->
  List.find (fun r => eqs (key r) (key a)) rows = Some a.
Proof.
  intros Hnd Ha.
  destruct (List.find (fun r => eqs (key r) (key a)) rows) as [b|] eqn:Hf.
  - apply List.find_some in Hf as [Hb Hk]. apply eqs_true in Hk.
    f_equal. eapply unique_key_inj; eauto.
  - eapply List.find_none in Hf; [|exact Ha]. simpl in Hf.
    now rewrite eqs_refl in Hf.
Qed.

Lemma find_absent (rows : list Row) (k : string) :
  List.find (fun r => eqs (key r) k) rows = None
  <-> forall r, In r rows -> key r <> k.
Proof.
  split.
  - intros Hf r Hr. eapply List.find_none in Hf; [|exact Hr].
    now apply eqs_false.
  - intros H. destruct (List.find _ rows) as [b|] eqn:Hf; [|reflexivity].
    apply List.find_some in Hf as [Hb Hk]. apply eqs_true in Hk.
    now destruct (H b Hb).
Qed.

End Tables.

Section FileRouterLemmas.

Import FileRouter.

Lemma fetchFile_run (caller id : string) (w : World) :
  fetchFile caller id w =
  match List.find (fun f => eqs (file_id f) id) (files w) with
  | Some f => (inr f, w)
  | None => (inl (TRPCError NOT_FOUND), w)
  end.
Proof.
  unfold fetchFile, mbind, M_bind, findFirst.
  now destruct (List.find _ (files w)).
Qed.

(** A caller who does not own the row does not find it. *)
Lemma find_owned_other (w : World) (f : File) (caller : string) :
  primaryKey w -> In f (files w) -> caller <> file_userId f ->
  List.find (fun g => eqs (file_id g) (file_id f) && eqs (file_userId g) caller)
            (files w) = None.
Proof.
  intros Hpk Hf Hne.
  destruct (List.find _ (files w)) as [g|] eqn:Hfind; [|reflexivity].
  apply List.find_some in Hfind as [Hg Hc].
  apply andb_prop in Hc as [Hid Hu].
  apply eqs_true in Hid. apply eqs_true in Hu.
  assert (g = f) by (eapply (unique_key_inj file_id); eauto).
  subst g. now destruct Hne.
Qed.

(** The owner's request removes the row and answers with it. *)
Lemma deleteFile_owner (w : World) (f : File) :
  primaryKey w -> In f (files w) ->
  deleteFile (file_userId f) (file_id f) w =
  (inr f, {| users := users w;
             files := List.filter (fun g => negb (eqs (file_id g) (file_id f))) (files w);
             compared := compared w |}).
Proof.
  intros Hpk Hf.
  unfold deleteFile, mbind, M_bind, findFirst.
  destruct (List.find _ (files w)) as [g|] eqn:Hfind.
  - pose proof Hfind as Hg. apply List.find_some in Hg as [Hg Hc].
    apply andb_prop in Hc as [Hid _]. apply eqs_true in Hid.
    assert (g = f) by (eapply (unique_key_inj file_id); eauto). subst g.
    unfold delete.
    assert (He : List.existsb (fun g => eqs (file_id g) (file_id f)) (files w) = true).
    { apply List.existsb_exists. exists f. split; [exact Hf|apply eqs_refl]. }
    now rewrite He.
  - eapply List.find_none in Hfind; [|exact Hf]. simpl in Hfind.
    now rewrite !eqs_refl in Hfind.
Qed.

End FileRouterLemmas.

(** C2: [fetchFile] answers with the row that has the requested id,
    whoever the caller is and whoever owns the row, and fails with
    [NOT_FOUND] exactly when the table has no row with that id; it never
    changes the store. *)
Theorem fetchFile_unscoped (caller id : string) (w : World) :
  (forall f, FileRouter.primaryKey w -> In f (files w) -> file_id f = id ->
             FileRouter.fetchFile caller id w = (inr f, w))
  /\ (FileRouter.fetchFile caller id w = (inl (TRPCError NOT_FOUND), w)
      <-> forall f, In f (files w) -> file_id f <> id)
  /\ (forall e w', FileRouter.fetchFile caller id w = (inl e, w') ->
                   e = TRPCError NOT_FOUND)
  /\ (forall other, FileRouter.fetchFile other id w = FileRouter.fetchFile caller id w).
Proof.
  split; [|split; [|split]].
  - intros f Hpk Hf <-. rewrite fetchFile_run.
    now rewrite (find_by_key file_id (files w) f Hpk Hf).
  - rewrite fetchFile_run, <- (find_absent file_id).
    destruct (List.find _ (files w)); split; congruence.
  - intros e w'. rewrite fetchFile_run.
    destruct (List.find _ (files w)); congruence.
  - intros other. now rewrite !fetchFile_run.
Qed.

Lemma two_files_primaryKey : FileRouter.primaryKey two_files.
Proof.
  unfold FileRouter.primaryKey. simpl.
  apply NoDup_cons. split.
  - rewrite list_elem_of_In. simpl. intros [H|[]]. discriminate H.
  - apply NoDup_cons. split; [|apply NoDup_nil_2].
    rewrite list_elem_of_In. simpl. tauto.
Defined.

Lemma fetchFile_unscoped_witness :
  FileRouter.fetchFile "bob" "f1" two_files = (inr alice_report, two_files).
Proof.
  apply (proj1 (fetchFile_unscoped "bob" "f1" two_files) alice_report).
  - exact two_files_primaryKey.
  - simpl. now left.
  - reflexivity.
Defined.

(** C3: a [deleteFile] request for a row owned by somebody else fails with
    [NOT_FOUND] and leaves the store, and so the row, as it was. *)
Theorem deleteFile_other_owner (w : World) (f : File) (caller : string) :
  FileRouter.primaryKey w -> In f (files w) -> caller <> file_userId f ->
  FileRouter.deleteFile caller (file_id f) w = (inl (TRPCError NOT_FOUND), w).
Proof.
  intros Hpk Hf Hne.
  unfold FileRouter.deleteFile, mbind, M_bind, FileRouter.findFirst.
  now rewrite (find_owned_other w f caller Hpk Hf Hne).
Qed.

Lemma deleteFile_other_owner_witness :
  FileRouter.deleteFile "bob" "f1" two_files = (inl (TRPCError NOT_FOUND), two_files).
Proof.
  apply (deleteFile_other_owner two_files alice_report "bob").
  - exact two_files_primaryKey.
  - simpl. now left.
  - intros H. discriminate H.
Defined.

Example deleteFile_by_owner :
  FileRouter.deleteFile "alice" "f1" two_files
  = (inr alice_report, {| users := []; files := [bob_notes]; compared := [] |}).
Proof. reflexivity. Qed.

(* ===================================================================== *)
(** * The credentials provider: rejections *)
(* ===================================================================== *)

Section AuthorizeLemmas.

Import Auth.

Variable bcrypt : string -> string -> bool.

Lemma authorize_incomplete (credentials : option Credentials) (w : World) :
  (forall e p, ~ complete credentials e p) ->
  authorize bcrypt credentials w = (inl (Error emailAndPasswordRequired), w).
Proof.
  intros H. unfold authorize.
  destruct credentials as [c|]; simpl; [|reflexivity].
  destruct (present (email c)) as [e|] eqn:He; [|reflexivity].
  destruct (present (password c)) as [p|] eqn:Hp; [|reflexivity].
  destruct (H e p). now exists c.
Qed.

(** With complete credentials the outcome is decided by the row found for
    the e-mail, its hash and bcrypt. *)
Lemma authorize_complete (credentials : option Credentials) (e p : string) (w : World) :
  complete credentials e p ->
  authorize bcrypt credentials w =
  match List.find (fun u => eqs (user_email u) e) (users w) with
  | None => (inl (Error emailDoesNotExist), w)
  | Some u =>
      match present (hashedPassword u) with
      | None => (inl (Error emailDoesNotExist), w)
      | Some h =>
          let w' := {| users := users w; files := files w;
                       compared := compared w ++ [(p, h)] |} in
          if bcrypt p h then (inr u, w')
          else (inl (Error incorrectPassword), w')
      end
  end.
Proof.
  intros (c & -> & He & Hp). unfold authorize. simpl. rewrite He, Hp.
  unfold mbind, M_bind, findUnique.
  destruct (List.find _ (users w)) as [u|]; [|reflexivity].
  destruct (present (hashedPassword u)) as [h|]; [|reflexivity].
  unfold compare. now destruct (bcrypt p h).
Qed.

Lemma complete_or_not (credentials : option Credentials) :
  (exists e p, complete credentials e p) \/ (forall e p, ~ complete credentials e p).
Proof.
  destruct credentials as [c|].
  - destruct (present (email c)) as [e|] eqn:He;
      [destruct (present (password c)) as [p|] eqn:Hp|].
    + left. exists e, p, c. auto.
    + right. intros e' p' (c' & [= <-] & _ & Hp'). congruence.
    + right. intros e' p' (c' & [= <-] & He' & _). congruence.
  - right. intros e p (c & Hc & _). discriminate Hc.
Qed.

End AuthorizeLemmas.

(** C4, as the specification states it, fails: a sign-in for an unknown
    e-mail and a sign-in for an account without a password hash are
    rejected with the same reason, and a fourth rejection, for incomplete
    credentials, has a reason of its own. *)
Lemma authorize_reasons_counterexample :
  let credentials := signIn "dave@example.com" "pw" in
  Auth.cause sampleBcrypt no_users "dave@example.com" "pw" Auth.UnknownAccount
  /\ Auth.cause sampleBcrypt two_users "dave@example.com" "pw" Auth.MissingCredential
  /\ Auth.authorize sampleBcrypt credentials no_users
     = (inl (Error "Email does not exist"), no_users)
  /\ Auth.authorize sampleBcrypt credentials two_users
     = (inl (Error "Email does not exist"), two_users)
  /\ Auth.authorize sampleBcrypt None two_users
     = (inl (Error "Email and password required"), two_users).
Proof. cbv zeta. repeat split. Qed.

(** C4 (amended): [authorize] rejects a sign-in in exactly four cases, with
    three reasons.  Credentials without an e-mail or a password give
    "Email and password required"; no account for the e-mail and an account
    without a password hash both give "Email does not exist"; a comparison
    that returns false gives "Incorrect password"; every other sign-in
    succeeds.  The three reasons differ, so a caller tells a wrong password
    from the other rejections, and does not tell an unknown account from a
    missing hash. *)
Theorem authorize_rejections (bcrypt : string -> string -> bool)
    (credentials : option Auth.Credentials) (w : World) :
  ((forall e p, ~ Auth.complete credentials e p) ->
   Auth.authorize bcrypt credentials w = (inl (Error Auth.emailAndPasswordRequired), w))
  /\ (forall e p, Auth.complete credentials e p ->
        (Auth.cause bcrypt w e p Auth.UnknownAccount
         \/ Auth.cause bcrypt w e p Auth.MissingCredential ->
         Auth.authorize bcrypt credentials w = (inl (Error Auth.emailDoesNotExist), w))
        /\ (Auth.cause bcrypt w e p Auth.WrongPassword ->
            exists w', Auth.authorize bcrypt credentials w
                       = (inl (Error Auth.incorrectPassword), w'))
        /\ ((forall c, ~ Auth.cause bcrypt w e p c) ->
            exists u w', Auth.authorize bcrypt credentials w = (inr u, w')))
  /\ (Auth.emailAndPasswordRequired <> Auth.emailDoesNotExist
      /\ Auth.emailDoesNotExist <> Auth.incorrectPassword
      /\ Auth.emailAndPasswordRequired <> Auth.incorrectPassword).
Proof.
  split; [apply authorize_incomplete|]. split.
  - intros e p Hc. rewrite (authorize_complete bcrypt credentials e p w Hc).
    unfold Auth.cause.
    destruct (List.find _ (users w)) as [u|].
    + destruct (Auth.present (hashedPassword u)) as [h|].
      * split; [|split].
        -- intros [[_ H]|[_ H]]; discriminate H.
        -- intros [Hb _]. rewrite Hb. eauto.
        -- intros H. destruct (bcrypt p h) eqn:Hb; [eauto|].
           destruct (H Auth.WrongPassword). auto.
      * split; [|split].
        -- reflexivity.
        -- intros H; discriminate H.
        -- intros H. now destruct (H Auth.MissingCredential).
    + split; [|split].
      * reflexivity.
      * intros H; discriminate H.
      * intros H. now destruct (H Auth.UnknownAccount).
  - repeat split; intros H; discriminate H.
Qed.

Lemma authorize_rejections_witness :
  Auth.authorize sampleBcrypt (signIn "dave@example.com" "pw") two_users
  = (inl (Error Auth.emailDoesNotExist), two_users).
Proof.
  destruct (authorize_rejections sampleBcrypt (signIn "dave@example.com" "pw") two_users)
    as (_ & H & _).
  destruct (H "dave@example.com" "pw") as (H1 & _ & _).
  - eexists. repeat split.
  - apply H1. right. reflexivity.
Defined.

(** C8: a sign-in for a user whose row has no password hash is rejected
    with a thrown [Error], whatever password is submitted, and the store
    with its record of bcrypt calls is as before: the comparison is not
    reached. *)
Theorem authorize_no_hash (bcrypt : string -> string -> bool) (w : World)
    (u : User) (c : Auth.Credentials) :
  NoDup (List.map user_email (users w)) -> In u (users w) ->
  hashedPassword u = None ->
  Auth.email c = Some (user_email u) ->
  exists message,
    Auth.authorize bcrypt (Some c) w = (inl (Error message), w)
    /\ (message = Auth.emailDoesNotExist \/ message = Auth.emailAndPasswordRequired).
Proof.
  intros Hnd Hu Hh He.
  destruct (complete_or_not (Some c)) as [(e & p & Hc)|Hn].
  - exists Auth.emailDoesNotExist. split; [|now left].
    rewrite (authorize_complete bcrypt (Some c) e p w Hc).
    destruct Hc as (c' & [= <-] & He' & _).
    assert (e = user_email u) as ->.
    { rewrite He in He'. simpl in He'. destruct (Js.truthy (user_email u)); congruence. }
    rewrite (find_by_key user_email (users w) u Hnd Hu).
    now rewrite Hh.
  - exists Auth.emailAndPasswordRequired. split; [|now right].
    now apply authorize_incomplete.
Qed.

Lemma two_users_unique_email : NoDup (List.map user_email (users two_users)).
Proof.
  simpl. apply NoDup_cons. split.
  - rewrite list_elem_of_In. simpl. intros [H|[]]. discriminate H.
  - apply NoDup_cons. split; [|apply NoDup_nil_2].
    rewrite list_elem_of_In. simpl. tauto.
Defined.

Lemma authorize_no_hash_witness :
  exists message,
    Auth.authorize sampleBcrypt (signIn "dave@example.com" "anything") two_users
    = (inl (Error message), two_users)
    /\ (message = Auth.emailDoesNotExist \/ message = Auth.emailAndPasswordRequired).
Proof.
  apply (authorize_no_hash sampleBcrypt two_users dave
           {| Auth.email := Some "dave@example.com"; Auth.password := Some "anything" |}).
  - exact two_users_unique_email.
  - simpl. right. now left.
  - reflexivity.
  - reflexivity.
Defined.

Example authorize_accepts :
  Auth.authorize sampleBcrypt (signIn "carol@example.com" "s3cret") two_users
  = (inr carol, {| users := [carol; dave]; files := [];
                   compared := [("s3cret", hashOf "s3cret")] |}).
Proof. reflexivity. Qed.

Example authorize_wrong_password :
  Auth.authorize sampleBcrypt (signIn "carol@example.com" "guess") two_users
  = (inl (Error "Incorrect password"),
     {| users := [carol; dave]; files := [];
        compared := [("guess", hashOf "s3cret")] |}).
Proof. reflexivity. Qed.

(* ===================================================================== *)
(** * The session callbacks *)
(* ===================================================================== *)

Section SessionLemmas.

Import Session.

Lemma get_jwt_id (token : JWT) (u : AuthUser) :
  get (jwt token (Some u)) "id" = VString (id u).
Proof. unfold get, jwt. now rewrite lookup_insert_eq. Qed.

Lemma get_jwt_name (token : JWT) (u : AuthUser) :
  get (jwt token (Some u)) "name" = name u.
Proof.
  unfold get, jwt.
  rewrite lookup_insert_ne by discriminate.
  now rewrite lookup_insert_eq.
Qed.

Lemma get_jwt_other (token : JWT) (u : option AuthUser) (k : string) :
  k <> "name" -> k <> "id" -> get (jwt token u) k = get token k.
Proof.
  intros Hn Hi. unfold get, jwt. destruct u as [u|]; [|reflexivity].
  now rewrite !lookup_insert_ne by congruence.
Qed.

(** The session callback copies the two claims and nothing else. *)
Lemma session_user (s : Session) (su : SessionUser) (token : JWT) :
  user s = Some su ->
  session s token =
  {| user := Some {| su_name := get token "name"; su_email := su_email su;
                     su_image := su_image su; su_id := get token "id" |};
     expires := expires s |}.
Proof. intros H. unfold session. now rewrite H. Qed.

Lemma session_no_user (s : Session) (token : JWT) :
  user s = None -> session s token = s.
Proof. intros H. unfold session. now rewrite H. Qed.

(** The token travels between two requests as a signed JSON object; all
    that the callbacks need of the encoding is that a claim reads after it
    as it read before. *)
Section Transport.

Variable transport : JWT -> JWT.
Hypothesis transport_get : forall t k, get (transport t) k = get t k.

Lemma session_after_transport (token : JWT) (u : AuthUser) (s : Session)
    (su : SessionUser) :
  user s = Some su ->
  session s (jwt (transport (jwt token (Some u))) None) =
  {| user := Some {| su_name := name u; su_email := su_email su;
                     su_image := su_image su; su_id := VString (id u) |};
     expires := expires s |}.
Proof.
  intros Hs. rewrite (session_user s su _ Hs).
  change (jwt (transport (jwt token (Some u))) None)
    with (transport (jwt token (Some u))).
  now rewrite !transport_get, get_jwt_id, get_jwt_name.
Qed.

End Transport.

End SessionLemmas.

(** C6: the id and the name that the jwt callback writes into the token at
    sign-in are the id and the name of the session user that the session
    callback builds from that token, at sign-in and on every later request,
    where the jwt callback runs again without a user. *)
Theorem session_roundtrip (token : gmap string Session.value) (u : Session.AuthUser)
    (s : Session.Session) (su : Session.SessionUser) :
  Session.user s = Some su ->
  let issued := Session.jwt token (Some u) in
  forall t, t = issued \/ t = Session.jwt issued None ->
    exists su', Session.user (Session.session s t) = Some su'
                /\ Session.su_id su' = Session.VString (Session.id u)
                /\ Session.su_name su' = Session.name u.
Proof.
  intros Hs issued t Ht.
  assert (t = issued) as -> by (destruct Ht as [->| ->]; reflexivity).
  rewrite (session_user s su issued Hs). simpl.
  eexists. split; [reflexivity|]. simpl. split.
  - apply get_jwt_id.
  - apply get_jwt_name.
Qed.

Lemma session_roundtrip_witness :
  exists su', Session.user (Session.session freshSession
                              (Session.jwt sampleToken (Some (Session.ofRow carol))))
              = Some su'
              /\ Session.su_id su' = Session.VString "u1"
              /\ Session.su_name su' = Session.VString "Carol".
Proof.
  eapply (session_roundtrip sampleToken (Session.ofRow carol) freshSession).
  - reflexivity.
  - left. reflexivity.
Defined.

(** C9: the validity window of the session token, [2592000 * 3] seconds, is
    90 days of 24 hours of 3600 seconds. *)
Theorem maxAge_90_days :
  Session.maxAge = (90 * 24 * 3600)%Z /\ Session.maxAge = 7776000%Z.
Proof. split; reflexivity. Qed.

(** C10: without a user the jwt callback returns the token it was given;
    with a user it writes the claims [name] and [id] and leaves every other
    claim as it was. *)
Theorem jwt_frame (token : gmap string Session.value) :
  Session.jwt token None = token
  /\ (forall u k, k <> "name" -> k <> "id" ->
                  Session.jwt token (Some u) !! k = token !! k)
  /\ (forall u, Session.jwt token (Some u) !! "name" = Some (Session.name u)
                /\ Session.jwt token (Some u) !! "id"
                   = Some (Session.VString (Session.id u))).
Proof.
  split; [reflexivity|]. split.
  - intros u k Hn Hi. unfold Session.jwt.
    now rewrite !lookup_insert_ne by congruence.
  - intros u. unfold Session.jwt. split.
    + rewrite lookup_insert_ne by discriminate. apply lookup_insert_eq.
    + apply lookup_insert_eq.
Qed.

Lemma jwt_frame_witness :
  Session.jwt sampleToken None = sampleToken
  /\ Session.jwt sampleToken (Some (Session.ofRow carol)) !! "sub"
     = sampleToken !! "sub".
Proof.
  destruct (jwt_frame sampleToken) as (H0 & H1 & _).
  split; [exact H0|].
  apply H1; intros H; discriminate H.
Defined.

(* ===================================================================== *)
(** * The magic-link e-mail: the host *)
(* ===================================================================== *)

Section EscapedHost.

Import Js Email.

Lemma replaceAllChar_app (c : ascii) (by_ s1 s2 : string) :
  replaceAllChar c by_ (s1 +:+ s2)
  = replaceAllChar c by_ s1 +:+ replaceAllChar c by_ s2.
Proof.
  induction s1 as [|d s1 IH]; simpl; [reflexivity|].
  destruct (Ascii.eqb d c); rewrite IH.
  - now rewrite append_assoc.
  - reflexivity.
Qed.

Lemma replaceAllChar_absent (c : ascii) (by_ s : string) :
  includesChar c s = false -> replaceAllChar c by_ s = s.
Proof.
  induction s as [|d s IH]; simpl; [reflexivity|].
  intros H. apply orb_false_elim in H as [Hd Hs].
  rewrite Ascii.eqb_sym, Hd. now rewrite IH.
Qed.

(** The marker goes in front of a dot. *)
Lemma escapedHost_dot (a b : string) :
  escapedHost (a +:+ "." +:+ b) = escapedHost a +:+ "&#8203;." +:+ escapedHost b.
Proof. unfold escapedHost. now rewrite !replaceAllChar_app. Qed.

Lemma escapedHost_label (l : string) :
  includesChar "." l = false -> escapedHost l = l.
Proof. apply replaceAllChar_absent. Qed.

Lemma escapedHost_join (labels : list string) :
  Forall (fun l => includesChar "." l = false) labels ->
  escapedHost (join "." labels) = join "&#8203;." labels.
Proof.
  induction 1 as [|l ls Hl Hls IH]; [reflexivity|].
  destruct ls as [|l' ls].
  - simpl. now apply escapedHost_label.
  - change (join "." (l :: l' :: ls)) with (l +:+ "." +:+ join "." (l' :: ls)).
    change (join "&#8203;." (l :: l' :: ls))
      with (l +:+ "&#8203;." +:+ join "&#8203;." (l' :: ls)).
    now rewrite escapedHost_dot, IH, escapedHost_label.
Qed.

Lemma labelsOf_join (host : string) :
  join "." (labelsOf host) = host
  /\ Forall (fun l => includesChar "." l = false) (labelsOf host)
  /\ labelsOf host <> [].
Proof.
  induction host as [|c s IH]; simpl.
  - repeat split; [now repeat constructor|discriminate].
  - destruct IH as (Hj & Hf & Hn).
    destruct (Ascii.eqb c ".") eqn:Hc.
    + apply Ascii.eqb_eq in Hc. subst c.
      destruct (labelsOf s) as [|l ls]; [congruence|].
      repeat split; [|now constructor|discriminate].
      change (join "." (EmptyString :: l :: ls)) with ("." +:+ join "." (l :: ls)).
      now rewrite Hj.
    + destruct (labelsOf s) as [|l ls]; [congruence|].
      apply Forall_cons in Hf as [Hl Hls].
      repeat split; [| |discriminate].
      * destruct ls; simpl in *; now rewrite <- Hj.
      * constructor; [|exact Hls].
        change (Ascii.eqb "." c || includesChar "." l = false).
        rewrite Ascii.eqb_sym, Hc. exact Hl.
Qed.

(** Every host is its labels joined by dots, so the rendering is fixed
    for every host. *)
Lemma escapedHost_labels (host : string) :
  escapedHost host = join "&#8203;." (labelsOf host).
Proof.
  destruct (labelsOf_join host) as (Hj & Hf & _).
  rewrite <- Hj at 1. now apply escapedHost_join.
Qed.

End EscapedHost.

(** C7, as the specification states it, fails: the marker is not put after
    the dot. *)
Lemma html_marker_counterexample :
  let h := "example.com" in
  Js.includesChar "." h = true
  /\ Email.escapedHost h = "example&#8203;.com"
  /\ Email.markerAfterEachDot h = "example.&#8203;com"
  /\ Email.escapedHost h <> Email.markerAfterEachDot h
  /\ forall u t,
       Email.html {| Email.url := u; Email.host := h; Email.theme := t |}
       = Email.htmlHead (Email.color t)
         +:+ "<strong>example&#8203;.com</strong>"
         +:+ Email.htmlTail u (Email.color t).
Proof.
  cbv zeta. repeat split; try reflexivity. intros H; discriminate H.
Qed.

(** C7 (amended): the HTML body shows the host with the zero-width-space
    entity put immediately before each dot: a host made of the labels
    [l1], ..., [ln] joined by dots is rendered as the same labels joined by
    the entity followed by a dot. *)
Theorem html_escapes_host (params : Email.HtmlParams) (labels : list string) :
  Email.host params = Email.join "." labels ->
  Forall (fun l => Js.includesChar "." l = false) labels ->
  Email.html params
  = Email.htmlHead (Email.color (Email.theme params))
    +:+ "<strong>" +:+ Email.join "&#8203;." labels +:+ "</strong>"
    +:+ Email.htmlTail (Email.url params) (Email.color (Email.theme params)).
Proof.
  intros Hh Hl. unfold Email.html. rewrite Hh.
  now rewrite (escapedHost_join labels Hl).
Qed.

Lemma html_escapes_host_witness :
  Email.html {| Email.url := "https://app.example.com/api/auth/callback/email?token=t";
                Email.host := "app.example.com";
                Email.theme := {| Email.brandColor := None; Email.buttonText := None |} |}
  = Email.htmlHead (Email.color {| Email.brandColor := None; Email.buttonText := None |})
    +:+ "<strong>" +:+ "app&#8203;.example&#8203;.com" +:+ "</strong>"
    +:+ Email.htmlTail "https://app.example.com/api/auth/callback/email?token=t"
          (Email.color {| Email.brandColor := None; Email.buttonText := None |}).
Proof.
  apply (html_escapes_host
           {| Email.url := "https://app.example.com/api/auth/callback/email?token=t";
              Email.host := "app.example.com";
              Email.theme := {| Email.brandColor := None; Email.buttonText := None |} |}
           ["app"; "example"; "com"]).
  - reflexivity.
  - repeat constructor.
Defined.

(* ===================================================================== *)
(** * More on the redirect guard *)
(* ===================================================================== *)

Section RedirectMore.

Import Js Redirect.

Lemma startsWith_longer (p q : string) :
  truthy q = true -> startsWith p (p +:+ q) = false.
Proof.
  intros Hq. induction p as [|c p IH]; simpl.
  - now destruct q.
  - now rewrite Ascii.eqb_refl.
Qed.

Lemma startsWith_refl (p : string) : startsWith p p = true.
Proof. induction p as [|c p IH]; simpl; [reflexivity|now rewrite Ascii.eqb_refl]. Qed.

Lemma base_not_signout (baseUrl : string) :
  startsWith baseUrl (baseUrl +:+ signoutPath) = false.
Proof. now apply startsWith_longer. Qed.

End RedirectMore.

(** X1: the guard answers with the callback URL itself exactly when that
    URL starts with the base URL and does not start with the base URL
    followed by the sign-out path. *)
Theorem redirect_unchanged_iff (url baseUrl : string) :
  Redirect.redirect url baseUrl = url
  <-> Js.startsWith url baseUrl = true
      /\ Js.startsWith url (baseUrl +:+ Redirect.signoutPath) = false.
Proof.
  split.
  - unfold Redirect.redirect.
    destruct (Js.startsWith url (baseUrl +:+ Redirect.signoutPath)) eqn:Hs.
    + intros <-. now rewrite base_not_signout in Hs.
    + destruct (Js.startsWith url baseUrl) eqn:Hb; [now split|].
      intros <-. now rewrite startsWith_refl in Hb.
  - intros [Hb Hs]. now apply redirect_prefixed.
Qed.

Lemma redirect_unchanged_iff_witness :
  Redirect.redirect "https://example.com/dashboard" "https://example.com"
  = "https://example.com/dashboard".
Proof.
  apply (proj2 (redirect_unchanged_iff "https://example.com/dashboard"
                  "https://example.com")).
  split; reflexivity.
Defined.

(** X2: whatever the callback URL is, the answer of the guard starts with
    the base URL and never starts with the base URL followed by the
    sign-out path. *)
Theorem redirect_never_signout (url baseUrl : string) :
  Js.startsWith (Redirect.redirect url baseUrl) baseUrl = true
  /\ Js.startsWith (Redirect.redirect url baseUrl)
       (baseUrl +:+ Redirect.signoutPath) = false.
Proof.
  unfold Redirect.redirect.
  destruct (Js.startsWith url (baseUrl +:+ Redirect.signoutPath)) eqn:Hs.
  - split; [apply startsWith_refl|apply base_not_signout].
  - destruct (Js.startsWith url baseUrl) eqn:Hb.
    + now split.
    + split; [apply startsWith_refl|apply base_not_signout].
Qed.

(** X3: the guard is idempotent: its answer passes the guard unchanged. *)
Theorem redirect_idempotent (url baseUrl : string) :
  Redirect.redirect (Redirect.redirect url baseUrl) baseUrl
  = Redirect.redirect url baseUrl.
Proof.
  apply redirect_prefixed.
  - unfold Redirect.redirect.
    destruct (Js.startsWith url (baseUrl +:+ Redirect.signoutPath));
      [apply startsWith_refl|].
    destruct (Js.startsWith url baseUrl) eqn:Hb; [exact Hb|apply startsWith_refl].
  - unfold Redirect.redirect.
    destruct (Js.startsWith url (baseUrl +:+ Redirect.signoutPath)) eqn:Hs;
      [apply base_not_signout|].
    destruct (Js.startsWith url baseUrl); [exact Hs|apply base_not_signout].
Qed.

(* ===================================================================== *)
(** * More on the file router *)
(* ===================================================================== *)

Section FileRouterMore.

Import FileRouter.

Lemma deleteFile_run (caller id : string) (w : World) :
  deleteFile caller id w =
  match List.find (fun f => eqs (file_id f) id && eqs (file_userId f) caller) (files w) with
  | Some f => (inr f, without id w)
  | None => (inl (TRPCError NOT_FOUND), w)
  end.
Proof.
  unfold deleteFile, mbind, M_bind, findFirst.
  destruct (List.find _ (files w)) as [f|] eqn:Hfind; [|reflexivity].
  apply List.find_some in Hfind as [Hf Hc].
  apply andb_prop in Hc as [Hid _].
  unfold delete.
  assert (He : List.existsb (fun g => eqs (file_id g) id) (files w) = true).
  { apply List.existsb_exists. now exists f. }
  now rewrite He.
Qed.

Lemma getFile_run (caller key : string) (w : World) :
  getFile caller key w =
  match List.find (fun f => eqs (file_key f) key && eqs (file_userId f) caller) (files w) with
  | Some f => (inr f, w)
  | None => (inl (TRPCError NOT_FOUND), w)
  end.
Proof.
  unfold getFile, mbind, M_bind, findFirst.
  now destruct (List.find _ (files w)).
Qed.

(** A find on two columns, read as a statement about the rows. *)
Lemma find_two_none {Row : Type} (k1 k2 : Row -> string) (a b : string)
    (rows : list Row) :
  List.find (fun r => eqs (k1 r) a && eqs (k2 r) b) rows = None
  <-> forall r, In r rows -> k1 r = a -> k2 r <> b.
Proof.
  split.
  - intros Hf r Hr H1 H2. eapply List.find_none in Hf; [|exact Hr].
    simpl in Hf. subst. now rewrite !eqs_refl in Hf.
  - intros H. destruct (List.find _ rows) as [r|] eqn:Hf; [|reflexivity].
    apply List.find_some in Hf as [Hr Hc].
    apply andb_prop in Hc as [H1 H2].
    apply eqs_true in H1. apply eqs_true in H2. now destruct (H r Hr H1).
Qed.

Lemma find_two_some {Row : Type} (k1 k2 : Row -> string) (a b : string)
    (rows : list Row) (r : Row) :
  List.find (fun r => eqs (k1 r) a && eqs (k2 r) b) rows = Some r ->
  In r rows /\ k1 r = a /\ k2 r = b.
Proof.
  intros Hf. apply List.find_some in Hf as [Hr Hc].
  apply andb_prop in Hc as [H1 H2].
  apply eqs_true in H1. apply eqs_true in H2. auto.
Qed.

Lemma without_no_id (id : string) (w : World) (g : File) :
  In g (files (without id w)) <-> In g (files w) /\ file_id g <> id.
Proof.
  unfold without. simpl. rewrite List.filter_In, negb_true_iff.
  now rewrite eqs_false.
Qed.

Lemma filter_absorb {A : Type} (P Q : A -> bool) (l : list A) :
  (forall x, In x l -> P x = true -> Q x = true) ->
  List.filter P (List.filter Q l) = List.filter P l.
Proof.
  induction l as [|x l IH]; simpl; [reflexivity|].
  intros H. destruct (Q x) eqn:HQ; simpl.
  - destruct (P x); rewrite IH; auto.
  - destruct (P x) eqn:HP.
    + rewrite (H x) in HQ; auto. discriminate.
    + apply IH. auto.
Qed.

Lemma NoDup_map_filter {A : Type} (k : A -> string) (P : A -> bool) (l : list A) :
  NoDup (List.map k l) -> NoDup (List.map k (List.filter P l)).
Proof.
  induction l as [|x l IH]; simpl; [auto|].
  intros Hnd. apply NoDup_cons in Hnd as [Hx Hnd].
  destruct (P x); simpl; [|auto].
  apply NoDup_cons. split; [|auto].
  rewrite list_elem_of_In in *. intros Hin. apply Hx.
  apply List.in_map_iff in Hin as (y & Hy & Hin).
  apply List.filter_In in Hin as [Hin _].
  apply List.in_map_iff. eauto.
Qed.

End FileRouterMore.


(** X5: once [deleteFile] has succeeded, the id is gone for everybody: a
    [fetchFile] and a second [deleteFile] for it fail with [NOT_FOUND],
    whoever asks. *)
Theorem deleteFile_then_gone (caller id : string) (w w' : World) (f : File) :
  FileRouter.deleteFile caller id w = (inr f, w') ->
  forall anyone,
    FileRouter.fetchFile anyone id w' = (inl (TRPCError NOT_FOUND), w')
    /\ FileRouter.deleteFile anyone id w' = (inl (TRPCError NOT_FOUND), w').
Proof.
  rewrite deleteFile_run.
  destruct (List.find _ (files w)) as [g|]; [|discriminate].
  intros [= <- <-] anyone. split.
  - rewrite fetchFile_run.
    assert (H : List.find (fun g => eqs (file_id g) id) (files (without id w)) = None).
    { apply (find_absent file_id). intros r Hr. now apply without_no_id in Hr. }
    now rewrite H.
  - rewrite deleteFile_run.
    assert (H : List.find (fun g => eqs (file_id g) id && eqs (file_userId g) anyone)
                  (files (without id w)) = None).
    { apply (find_two_none file_id file_userId). intros r Hr Hid.
      apply without_no_id in Hr. tauto. }
    now rewrite H.
Qed.

Lemma deleteFile_then_gone_witness :
  FileRouter.fetchFile "bob" "f1" (without "f1" two_files)
  = (inl (TRPCError NOT_FOUND), without "f1" two_files)
  /\ FileRouter.deleteFile "bob" "f1" (without "f1" two_files)
     = (inl (TRPCError NOT_FOUND), without "f1" two_files).
Proof.
  apply (deleteFile_then_gone "alice" "f1" two_files (without "f1" two_files)
           alice_report).
  reflexivity.
Defined.

(** X6: with [id] the primary key, a successful [deleteFile] removes the
    caller's row and nothing else: the rows left are the rows there were
    but the answer, the primary key still holds, and the users and the
    record of bcrypt calls are as before. *)
Theorem deleteFile_removes_one (caller id : string) (w w' : World) (f : File) :
  FileRouter.primaryKey w ->
  FileRouter.deleteFile caller id w = (inr f, w') ->
  (forall g, In g (files w') <-> In g (files w) /\ g <> f)
  /\ file_userId f = caller
  /\ FileRouter.primaryKey w'
  /\ users w' = users w /\ compared w' = compared w.
Proof.
  intros Hpk. rewrite deleteFile_run.
  destruct (List.find _ (files w)) as [g|] eqn:Hfind; [|discriminate].
  intros [= <- <-].
  apply (find_two_some file_id file_userId) in Hfind as (Hg & Hid & Hu).
  split; [|split; [exact Hu|split; [|split; reflexivity]]].
  - intros r. rewrite without_no_id. split.
    + intros [Hr Hne]. split; [exact Hr|]. intros ->. now destruct Hne.
    + intros [Hr Hne]. split; [exact Hr|]. intros Hrid. apply Hne.
      eapply (unique_key_inj file_id); eauto. congruence.
  - unfold FileRouter.primaryKey, without. simpl.
    now apply NoDup_map_filter.
Qed.

Lemma deleteFile_removes_one_witness :
  (forall g, In g (files (without "f1" two_files))
             <-> In g (files two_files) /\ g <> alice_report)
  /\ file_userId alice_report = "alice"
  /\ FileRouter.primaryKey (without "f1" two_files)
  /\ users (without "f1" two_files) = users two_files
  /\ compared (without "f1" two_files) = compared two_files.
Proof.
  apply (deleteFile_removes_one "alice" "f1" two_files).
  - exact two_files_primaryKey.
  - reflexivity.
Defined.

(** X7: with [id] the primary key, a successful [deleteFile] does not
    change what [fetchAll] lists for any other user. *)
Theorem deleteFile_isolated (caller other id : string) (w w' : World) (f : File) :
  FileRouter.primaryKey w ->
  FileRouter.deleteFile caller id w = (inr f, w') ->
  other <> caller ->
  fst (FileRouter.fetchAll other w') = fst (FileRouter.fetchAll other w).
Proof.
  intros Hpk. rewrite deleteFile_run.
  destruct (List.find _ (files w)) as [g|] eqn:Hfind; [|discriminate].
  intros [= <- <-] Hne.
  apply (find_two_some file_id file_userId) in Hfind as (Hg & Hid & Hu).
  unfold FileRouter.fetchAll, FileRouter.findMany, without. simpl. f_equal.
  apply filter_absorb. intros x Hx Hown.
  apply eqs_true in Hown. apply negb_true_iff, eqs_false. intros Hxid.
  assert (x = g) by (eapply (unique_key_inj file_id); eauto; congruence).
  subst x. congruence.
Qed.

Lemma deleteFile_isolated_witness :
  fst (FileRouter.fetchAll "bob" (without "f1" two_files))
  = fst (FileRouter.fetchAll "bob" two_files).
Proof.
  apply (deleteFile_isolated "alice" "bob" "f1" two_files (without "f1" two_files)
           alice_report).
  - exact two_files_primaryKey.
  - reflexivity.
  - intros H. discriminate H.
Defined.

(** X8: [getFile] is scoped to the caller: what it answers with is a row of
    the table with the requested storage key that the caller owns; it fails,
    with [NOT_FOUND] and nothing else, exactly when the caller owns no row
    with that key; the store is never changed. *)
Theorem getFile_scoped (caller key : string) (w : World) :
  (forall f w', FileRouter.getFile caller key w = (inr f, w') ->
                In f (files w) /\ file_key f = key /\ file_userId f = caller
                /\ w' = w)
  /\ (FileRouter.getFile caller key w = (inl (TRPCError NOT_FOUND), w)
      <-> forall f, In f (files w) -> file_key f = key -> file_userId f <> caller)
  /\ (forall e w', FileRouter.getFile caller key w = (inl e, w') ->
                   e = TRPCError NOT_FOUND /\ w' = w).
Proof.
  rewrite getFile_run.
  destruct (List.find _ (files w)) as [g|] eqn:Hfind.
  - apply (find_two_some file_key file_userId) in Hfind as (Hg & Hk & Hu).
    split; [|split].
    + intros f w' [= <- <-]. auto.
    + split; [discriminate|]. intros H. now destruct (H g Hg Hk).
    + intros e w' H. discriminate H.
  - pose proof (proj1 (find_two_none file_key file_userId _ _ _) Hfind) as Hn.
    split; [|split].
    + intros f w' H. discriminate H.
    + split; auto.
    + intros e w' [= <- <-]. auto.
Qed.

Lemma getFile_scoped_witness :
  In alice_report (files two_files) /\ file_key alice_report = "k1"
  /\ file_userId alice_report = "alice" /\ two_files = two_files.
Proof.
  apply (proj1 (getFile_scoped "alice" "k1" two_files) alice_report two_files).
  reflexivity.
Defined.

(** X9: [fetchAll] lists the caller's rows and no others, and leaves the
    store as it was; with [id] the primary key, every row it lists is the
    row that [fetchFile] gives for its id and that [getFile] finds some row
    for its storage key. *)
Theorem fetchAll_owned (caller : string) (w : World) :
  exists rows,
    FileRouter.fetchAll caller w = (inr rows, w)
    /\ (forall f, In f rows <-> In f (files w) /\ file_userId f = caller)
    /\ (FileRouter.primaryKey w -> forall f, In f rows ->
          FileRouter.fetchFile caller (file_id f) w = (inr f, w)
          /\ exists g, FileRouter.getFile caller (file_key f) w = (inr g, w)).
Proof.
  eexists. split; [reflexivity|]. split.
  - intros f. rewrite List.filter_In. now rewrite eqs_true.
  - intros Hpk f Hf. apply List.filter_In in Hf as [Hf Hown].
    apply eqs_true in Hown. split.
    + rewrite fetchFile_run. now rewrite (find_by_key file_id (files w) f Hpk Hf).
    + rewrite getFile_run.
      destruct (List.find _ (files w)) as [g|] eqn:Hfind; [eauto|].
      pose proof (proj1 (find_two_none file_key file_userId _ _ _) Hfind) as Hn.
      now destruct (Hn f Hf eq_refl).
Qed.

Lemma fetchAll_owned_witness :
  FileRouter.fetchFile "alice" (file_id alice_report) two_files
  = (inr alice_report, two_files)
  /\ exists g, FileRouter.getFile "alice" (file_key alice_report) two_files
               = (inr g, two_files).
Proof.
  destruct (fetchAll_owned "alice" two_files) as (rows & Hrun & Hin & Hpk).
  apply (Hpk two_files_primaryKey alice_report).
  apply Hin. split; [simpl; now left|reflexivity].
Defined.

(* ===================================================================== *)
(** * More on the credentials provider *)
(* ===================================================================== *)

Section AuthorizeMore.

Import Auth.

Lemma present_truthy (o : option string) (s : string) :
  present o = Some s -> o = Some s /\ s <> EmptyString.
Proof.
  destruct o as [t|]; simpl; [|discriminate].
  destruct t; simpl; [discriminate|].
  intros [= <-]. split; [reflexivity|discriminate].
Qed.

End AuthorizeMore.

(** X10: [authorize] accepts a sign-in exactly when the credentials are
    complete, the row found for the e-mail has a hash that is not empty and
    bcrypt accepts the submitted password against that hash; it answers
    with that row, and bcrypt has been called once, with this password and
    this hash. *)
Theorem authorize_accepts_iff (bcrypt : string -> string -> bool)
    (credentials : option Auth.Credentials) (w w' : World) (u : User) :
  Auth.authorize bcrypt credentials w = (inr u, w')
  <-> exists e p h,
        Auth.complete credentials e p
        /\ List.find (fun r => eqs (user_email r) e) (users w) = Some u
        /\ Auth.present (hashedPassword u) = Some h
        /\ bcrypt p h = true
        /\ w' = afterCompare w p h.
Proof.
  split.
  - intros H.
    destruct (complete_or_not credentials) as [(e & p & Hc)|Hn].
    + rewrite (authorize_complete bcrypt credentials e p w Hc) in H.
      destruct (List.find _ (users w)) as [r|] eqn:Hfind; [|discriminate].
      destruct (Auth.present (hashedPassword r)) as [h|] eqn:Hh; [|discriminate].
      simpl in H. destruct (bcrypt p h) eqn:Hb; [|discriminate].
      injection H as <- <-. exists e, p, h. auto.
    + rewrite (authorize_incomplete bcrypt credentials w Hn) in H. discriminate.
  - intros (e & p & h & Hc & Hfind & Hh & Hb & ->).
    rewrite (authorize_complete bcrypt credentials e p w Hc), Hfind, Hh.
    simpl. now rewrite Hb.
Qed.

Lemma authorize_accepts_iff_witness :
  Auth.authorize sampleBcrypt (signIn "carol@example.com" "s3cret") two_users
  = (inr carol, afterCompare two_users "s3cret" (hashOf "s3cret")).
Proof.
  apply (proj2 (authorize_accepts_iff sampleBcrypt (signIn "carol@example.com" "s3cret")
                  two_users (afterCompare two_users "s3cret" (hashOf "s3cret")) carol)).
  exists "carol@example.com", "s3cret", (hashOf "s3cret").
  repeat split. eexists. repeat split.
Defined.

(** X11: "Incorrect password" is thrown only after bcrypt has compared the
    submitted password with the hash stored for the submitted e-mail and
    has returned false; it is never the answer for an e-mail without an
    account or for an account without a hash. *)
Theorem incorrect_password_after_compare (bcrypt : string -> string -> bool)
    (credentials : option Auth.Credentials) (w w' : World) :
  Auth.authorize bcrypt credentials w = (inl (Error Auth.incorrectPassword), w') ->
  exists e p u h,
    Auth.complete credentials e p
    /\ List.find (fun r => eqs (user_email r) e) (users w) = Some u
    /\ hashedPassword u = Some h
    /\ bcrypt p h = false
    /\ w' = afterCompare w p h.
Proof.
  intros H.
  destruct (complete_or_not credentials) as [(e & p & Hc)|Hn].
  - rewrite (authorize_complete bcrypt credentials e p w Hc) in H.
    destruct (List.find _ (users w)) as [r|] eqn:Hfind; [|discriminate].
    destruct (Auth.present (hashedPassword r)) as [h|] eqn:Hh; [|discriminate].
    simpl in H. destruct (bcrypt p h) eqn:Hb; [discriminate|].
    injection H as <-. exists e, p, r, h.
    apply present_truthy in Hh as [Hh _]. auto.
  - rewrite (authorize_incomplete bcrypt credentials w Hn) in H. discriminate.
Qed.

Lemma incorrect_password_after_compare_witness :
  exists e p u h,
    Auth.complete (signIn "carol@example.com" "guess") e p
    /\ List.find (fun r => eqs (user_email r) e) (users two_users) = Some u
    /\ hashedPassword u = Some h
    /\ sampleBcrypt p h = false
    /\ afterCompare two_users "guess" (hashOf "s3cret") = afterCompare two_users p h.
Proof.
  apply (incorrect_password_after_compare sampleBcrypt
           (signIn "carol@example.com" "guess") two_users).
  reflexivity.
Defined.

(** X12: however [authorize] ends, the tables are as before and bcrypt has
    been called at most once; when it has been called, it was with the
    submitted password and the stored hash of the row found for the
    submitted e-mail, neither of them empty. *)
Theorem authorize_frame (bcrypt : string -> string -> bool)
    (credentials : option Auth.Credentials) (w w' : World) (r : Exn + User) :
  Auth.authorize bcrypt credentials w = (r, w') ->
  users w' = users w /\ files w' = files w
  /\ (compared w' = compared w
      \/ exists c u p h,
           credentials = Some c /\ Auth.password c = Some p
           /\ In u (users w) /\ Auth.email c = Some (user_email u)
           /\ hashedPassword u = Some h
           /\ p <> EmptyString /\ h <> EmptyString
           /\ compared w' = compared w ++ [(p, h)]).
Proof.
  intros H.
  destruct (complete_or_not credentials) as [(e & p & Hc)|Hn].
  - rewrite (authorize_complete bcrypt credentials e p w Hc) in H.
    destruct Hc as (c & -> & He & Hp).
    apply present_truthy in He as [He _].
    apply present_truthy in Hp as [Hp Hpne].
    destruct (List.find _ (users w)) as [u|] eqn:Hfind.
    + apply List.find_some in Hfind as [Hu Hmail]. apply eqs_true in Hmail.
      destruct (Auth.present (hashedPassword u)) as [h|] eqn:Hh.
      * apply present_truthy in Hh as [Hh Hhne]. simpl in H.
        assert (w' = afterCompare w p h) as ->
          by (destruct (bcrypt p h); injection H as _ <-; reflexivity).
        simpl. repeat split. right. exists c, u, p, h.
        rewrite Hmail. auto 10.
      * injection H as _ <-. auto.
    + injection H as _ <-. auto.
  - rewrite (authorize_incomplete bcrypt credentials w Hn) in H.
    injection H as _ <-. auto.
Qed.

Lemma authorize_frame_witness :
  users (afterCompare two_users "guess" (hashOf "s3cret")) = users two_users
  /\ files (afterCompare two_users "guess" (hashOf "s3cret")) = files two_users
  /\ (compared (afterCompare two_users "guess" (hashOf "s3cret")) = compared two_users
      \/ exists c u p h,
           signIn "carol@example.com" "guess" = Some c /\ Auth.password c = Some p
           /\ In u (users two_users) /\ Auth.email c = Some (user_email u)
           /\ hashedPassword u = Some h
           /\ p <> EmptyString /\ h <> EmptyString
           /\ compared (afterCompare two_users "guess" (hashOf "s3cret"))
              = compared two_users ++ [(p, h)]).
Proof.
  apply (authorize_frame sampleBcrypt (signIn "carol@example.com" "guess") two_users
           (afterCompare two_users "guess" (hashOf "s3cret"))
           (inl (Error Auth.incorrectPassword))).
  reflexivity.
Defined.

(* ===================================================================== *)
(** * More on the session callbacks *)
(* ===================================================================== *)

(** X13: the session callback takes the two claims from the token it is
    given last: applying it with one token and then with another is
    applying it with the second alone, so applying it twice with the same
    token changes nothing more; the expiry, the e-mail and the image of the
    session are never touched. *)
Theorem session_last_token (s : Session.Session) (t1 t2 : gmap string Session.value) :
  Session.session (Session.session s t1) t2 = Session.session s t2
  /\ Session.expires (Session.session s t1) = Session.expires s
  /\ Session.su_email <$> Session.user (Session.session s t1)
     = Session.su_email <$> Session.user s
  /\ Session.su_image <$> Session.user (Session.session s t1)
     = Session.su_image <$> Session.user s.
Proof.
  unfold Session.session.
  destruct (Session.user s) as [su|] eqn:Hs; simpl.
  - repeat split.
  - rewrite Hs. repeat split.
Qed.

(** X14: a later sign-in overrides an earlier one in the token: the jwt
    callback with a user, after any run of the callback, gives the token
    that it gives without that run; and the callback never removes a
    claim. *)
Theorem jwt_last_user (token : gmap string Session.value)
    (u1 : option Session.AuthUser) (u2 : Session.AuthUser) :
  Session.jwt (Session.jwt token u1) (Some u2) = Session.jwt token (Some u2)
  /\ dom token ⊆ dom (Session.jwt token u1).
Proof.
  split.
  - destruct u1 as [u1|]; [|reflexivity].
    unfold Session.jwt. apply map_eq. intros k.
    destruct (decide (k = "id")) as [->|Hid].
    + now rewrite !lookup_insert_eq.
    + rewrite !(lookup_insert_ne _ "id") by congruence.
      destruct (decide (k = "name")) as [->|Hname].
      * now rewrite !lookup_insert_eq.
      * now rewrite !lookup_insert_ne by congruence.
  - destruct u1 as [u1|]; [|reflexivity].
    unfold Session.jwt. rewrite !dom_insert_L. set_solver.
Qed.

(* ===================================================================== *)
(** * More on the e-mail bodies *)
(* ===================================================================== *)

Section EmailMore.

Import Js Email.

Lemma length_append (a b : string) :
  String.length (a +:+ b) = String.length a + String.length b.
Proof. induction a as [|c a IH]; simpl; [reflexivity|now rewrite IH]. Qed.

Lemma countChar_append (c : ascii) (a b : string) :
  countChar c (a +:+ b) = countChar c a + countChar c b.
Proof. induction a as [|d a IH]; simpl; [reflexivity|rewrite IH; lia]. Qed.

Lemma includesChar_count (c : ascii) (s : string) :
  includesChar c s = false <-> countChar c s = 0.
Proof.
  induction s as [|d s IH]; simpl; [tauto|].
  rewrite (Ascii.eqb_sym c d).
  destruct (Ascii.eqb d c); simpl; [split; [discriminate|lia]|exact IH].
Qed.

Lemma escapedHost_length_count (h : string) :
  String.length (escapedHost h) = String.length h + 7 * countChar "." h
  /\ countChar "." (escapedHost h) = countChar "." h.
Proof.
  unfold escapedHost. induction h as [|c h [IHl IHc]]; [split; reflexivity|].
  cbn [replaceAllChar countChar String.length].
  destruct (Ascii.eqb c ".") eqn:Hc.
  - rewrite length_append, countChar_append, IHl, IHc. simpl. split; lia.
  - cbn [String.length countChar]. rewrite Hc, IHl, IHc. split; lia.
Qed.

(** Cancelling a common end. *)
Lemma append_cancel_r (a b c : string) : a +:+ c = b +:+ c -> a = b.
Proof.
  revert b. induction a as [|x a IH]; intros [|y b] H; simpl in H.
  - reflexivity.
  - apply (f_equal String.length) in H. simpl in H.
    rewrite length_append in H. lia.
  - apply (f_equal String.length) in H. simpl in H.
    rewrite length_append in H. lia.
  - injection H as -> H. f_equal. now apply IH.
Qed.

Lemma includesChar_cons (c d : ascii) (s : string) :
  includesChar c (String d s) = false -> c <> d /\ includesChar c s = false.
Proof.
  change (includesChar c (String d s)) with (Ascii.eqb c d || includesChar c s).
  intros H. apply orb_false_elim in H as [Hc Hs].
  split; [now apply Ascii.eqb_neq|exact Hs].
Qed.

(** Two texts cut at their first line feed agree piece by piece. *)
Lemma first_line_inj (a b r r' : string) :
  includesChar lf a = false -> includesChar lf b = false ->
  a +:+ String lf r = b +:+ String lf r' -> a = b /\ r = r'.
Proof.
  revert b. induction a as [|x a IH]; intros [|y b] Ha Hb H; simpl in H.
  - injection H as ->. auto.
  - injection H as <- _. apply includesChar_cons in Hb as [Hb _]. now destruct Hb.
  - injection H as -> _. apply includesChar_cons in Ha as [Ha _]. now destruct Ha.
  - injection H as -> H.
    apply includesChar_cons in Ha as [_ Ha]. apply includesChar_cons in Hb as [_ Hb].
    destruct (IH b Ha Hb H) as [-> ->]. auto.
Qed.

End EmailMore.

(** X15: the rendered host is longer than the host by seven characters for
    each dot, it has as many dots as the host, and it is the host itself
    exactly when the host has no dot. *)
Theorem escapedHost_size (h : string) :
  String.length (Email.escapedHost h) = String.length h + 7 * countChar "." h
  /\ countChar "." (Email.escapedHost h) = countChar "." h
  /\ (Email.escapedHost h = h <-> Js.includesChar "." h = false).
Proof.
  destruct (escapedHost_length_count h) as [Hl Hc].
  split; [exact Hl|split; [exact Hc|]]. split.
  - intros He. rewrite He in Hl. apply includesChar_count. lia.
  - apply escapedHost_label.
Qed.

Lemma escapedHost_size_witness :
  Email.escapedHost "localhost:3000" = "localhost:3000".
Proof.
  apply (proj2 (proj2 (proj2 (escapedHost_size "localhost:3000")))).
  reflexivity.
Defined.

(** X16: in the rendered host every dot comes immediately after the
    zero-width-space entity: whatever stands before a dot ends in
    [&#8203;]. *)
Theorem escapedHost_dot_preceded (h a b : string) :
  Email.escapedHost h = a +:+ "." +:+ b ->
  exists a0, a = a0 +:+ "&#8203;".
Proof.
  unfold Email.escapedHost. revert a.
  induction h as [|c h IH]; intros a H.
  - destruct a; discriminate H.
  - cbn [Email.replaceAllChar] in H.
    destruct (Ascii.eqb c ".") eqn:Hc.
    + simpl in H.
      do 7 (destruct a as [|? a]; simpl in H; [discriminate H|injection H as <- H]).
      destruct a as [|x a]; simpl in H.
      * now exists EmptyString.
      * injection H as <- H. destruct (IH a H) as [a0 ->].
        now exists ("&#8203;." +:+ a0).
    + destruct a as [|x a]; simpl in H.
      * injection H as -> _. discriminate Hc.
      * injection H as <- H. destruct (IH a H) as [a0 ->].
        now exists (String c a0).
Qed.

Lemma escapedHost_dot_preceded_witness :
  exists a0, "app&#8203;.example&#8203;" = a0 +:+ "&#8203;".
Proof.
  apply (escapedHost_dot_preceded "app.example.com" "app&#8203;.example&#8203;" "com").
  reflexivity.
Defined.

(** X17: for hosts without a line feed, the plain-text body determines the
    URL and the host it was made from. *)
Theorem text_determines (u u' h h' : string) :
  Js.includesChar lf h = false -> Js.includesChar lf h' = false ->
  Email.text u h = Email.text u' h' -> u = u' /\ h = h'.
Proof.
  intros Hh Hh' H. unfold Email.text, Email.nl in H.
  change (String (ascii_of_nat 10) EmptyString) with (String lf EmptyString) in H.
  simpl in H. injection H as H.
  change (h +:+ String lf (u +:+ String lf (String lf EmptyString))
          = h' +:+ String lf (u' +:+ String lf (String lf EmptyString))) in H.
  destruct (first_line_inj _ _ _ _ Hh Hh' H) as [-> Hu].
  split; [|reflexivity]. now apply append_cancel_r in Hu.
Qed.

Lemma text_determines_witness :
  "https://example.com/a" = "https://example.com/a" /\ "example.com" = "example.com".
Proof.
  apply (text_determines "https://example.com/a" "https://example.com/a"
           "example.com" "example.com"); reflexivity.
Defined.

(* ===================================================================== *)
(** * Sending the magic link *)
(* ===================================================================== *)

Section MailerLemmas.

Import Mailer.

Lemma failedOf_nil (info : SentMessageInfo) :
  failedOf info = []
  <-> forall a, In a (default [] (rejected info)) -> a = EmptyString.
Proof.
  unfold failedOf. destruct (rejected info) as [l|]; simpl; [|tauto].
  induction l as [|x l IH]; simpl; [tauto|].
  destruct x as [|c x]; simpl.
  - rewrite IH. split; [intros H a [<-|Ha]; auto|auto].
  - split; [discriminate|]. intros H. discriminate (H (String c x)). now left.
Qed.

Lemma failedOf_spec (info : SentMessageInfo) (a : string) :
  In a (failedOf info)
  <-> In a (default [] (rejected info)) /\ a <> EmptyString.
Proof.
  unfold failedOf. destruct (rejected info) as [l|]; simpl; [|tauto].
  rewrite List.filter_In. destruct a; simpl; intuition congruence.
Qed.

End MailerLemmas.

(** X18: [sendVerificationRequest] ends without an error exactly when the
    URL has a host, the transport takes the message and every address it
    reports as rejected, if any, is empty. *)
Theorem sendVerificationRequest_succeeds_iff
    (hostOf : string -> Exn + string)
    (sendMail : Mailer.Message -> Exn + Mailer.SentMessageInfo)
    (identifier url providerFrom : string) (theme : Email.Theme) :
  snd (Mailer.sendVerificationRequest hostOf sendMail identifier url providerFrom theme)
  = inr tt
  <-> exists host info,
        hostOf url = inr host
        /\ sendMail (Mailer.messageOf identifier url providerFrom theme host) = inr info
        /\ forall a, In a (default [] (Mailer.rejected info)) -> a = EmptyString.
Proof.
  unfold Mailer.sendVerificationRequest.
  destruct (hostOf url) as [e|host] eqn:Hh; simpl.
  - split; [discriminate|]. intros (h & i & H & _). discriminate H.
  - destruct (sendMail _) as [e|info] eqn:Hs; simpl.
    + split; [discriminate|]. intros (h & i & [= <-] & H & _). congruence.
    + destruct (Mailer.failedOf info) as [|a l] eqn:Hf; simpl.
      * split; [|reflexivity]. intros _. exists host, info.
        split; [reflexivity|split; [exact Hs|now apply failedOf_nil]].
      * split; [discriminate|]. intros (h & i & [= <-] & H & Hr).
        rewrite Hs in H. injection H as <-.
        apply failedOf_nil in Hr. congruence.
Qed.

Lemma sendVerificationRequest_succeeds_iff_witness :
  snd (Mailer.sendVerificationRequest sampleHostOf sampleSendMail
         "carol@example.com" magicLink "no-reply@example.com" noTheme)
  = inr tt.
Proof.
  apply (proj2 (sendVerificationRequest_succeeds_iff sampleHostOf sampleSendMail
                  "carol@example.com" magicLink "no-reply@example.com" noTheme)).
  exists "app.example.com", {| Mailer.rejected := Some [] |}.
  repeat split. intros a [].
Defined.

(** X19: when the transport takes the message and reports a rejected
    address that is not empty, [sendVerificationRequest] throws an [Error]
    whose text lists the rejected addresses that are not empty, in the
    order of the report and separated by a comma and a space; the message
    has been handed to the transport, once, all the same. *)
Theorem sendVerificationRequest_rejected
    (hostOf : string -> Exn + string)
    (sendMail : Mailer.Message -> Exn + Mailer.SentMessageInfo)
    (identifier url providerFrom : string) (theme : Email.Theme)
    (host : string) (info : Mailer.SentMessageInfo) (a : string) :
  hostOf url = inr host ->
  sendMail (Mailer.messageOf identifier url providerFrom theme host) = inr info ->
  In a (default [] (Mailer.rejected info)) -> a <> EmptyString ->
  Mailer.sendVerificationRequest hostOf sendMail identifier url providerFrom theme
  = ([Mailer.messageOf identifier url providerFrom theme host],
     inl (Error ("Email(s) ("
                 +:+ Email.join ", "
                       (List.filter Js.truthy (default [] (Mailer.rejected info)))
                 +:+ ") could not be sent"))).
Proof.
  intros Hh Hs Ha Hne. unfold Mailer.sendVerificationRequest.
  rewrite Hh. simpl. rewrite Hs.
  assert (Hin : In a (Mailer.failedOf info)) by now apply failedOf_spec.
  assert (Hf : Mailer.failedOf info
               = List.filter Js.truthy (default [] (Mailer.rejected info))).
  { unfold Mailer.failedOf. now destruct (Mailer.rejected info). }
  rewrite <- Hf. destruct (Mailer.failedOf info); [destruct Hin|reflexivity].
Qed.

Lemma sendVerificationRequest_rejected_witness :
  Mailer.sendVerificationRequest sampleHostOf sampleSendMail
    "erin@bounce.example" magicLink "no-reply@example.com" noTheme
  = ([Mailer.messageOf "erin@bounce.example" magicLink "no-reply@example.com"
        noTheme "app.example.com"],
     inl (Error ("Email(s) ("
                 +:+ Email.join ", "
                       (List.filter Js.truthy
                          (default [] (Some [EmptyString; "erin@bounce.example"])))
                 +:+ ") could not be sent"))).
Proof.
  apply (sendVerificationRequest_rejected sampleHostOf sampleSendMail
           "erin@bounce.example" magicLink "no-reply@example.com" noTheme
           "app.example.com"
           {| Mailer.rejected := Some [EmptyString; "erin@bounce.example"] |}
           "erin@bounce.example").
  - reflexivity.
  - reflexivity.
  - simpl. right. now left.
  - discriminate.
Defined.

Example sendVerificationRequest_error_text :
  snd (Mailer.sendVerificationRequest sampleHostOf sampleSendMail
         "erin@bounce.example" magicLink "no-reply@example.com" noTheme)
  = inl (Error "Email(s) (erin@bounce.example) could not be sent").
Proof. reflexivity. Qed.

(* ===================================================================== *)
(** * The sign-in form *)
(* ===================================================================== *)

(** X20: [login] sends the browser to the dashboard exactly when the
    inputs pass validation and [signIn] resolves without an error; the
    success toast comes with that navigation and in no other case, and
    [signIn] is not called at all when validation fails. *)
Theorem login_navigates_iff (validateInputs : string -> string -> bool)
    (signIn : string -> string -> option string
              -> AuthForm.Settled (option AuthForm.SignInResponse))
    (st : AuthForm.State) :
  let effects := AuthForm.login validateInputs signIn st in
  (In (AuthForm.Navigate "/dashboard") effects
   <-> validateInputs (AuthForm.email st) (AuthForm.password st) = true
       /\ exists res,
            signIn "credentials" (AuthForm.email st) (Some (AuthForm.password st))
            = AuthForm.Resolved res
            /\ AuthForm.errorOf res = None)
  /\ (forall m, In (AuthForm.ToastSuccess m) effects
                -> In (AuthForm.Navigate "/dashboard") effects)
  /\ (validateInputs (AuthForm.email st) (AuthForm.password st) = false
      -> forall p e pw, ~ In (AuthForm.SignIn p e pw) effects).
Proof.
  cbv zeta. unfold AuthForm.login.
  destruct (validateInputs _ _) eqn:Hv; simpl.
  - destruct (signIn _ _ _) as [res|] eqn:Hs.
    + destruct (AuthForm.errorOf res) as [e|] eqn:He; simpl.
      * split; [|split].
        -- split.
           ++ intros [H|[H|[]]]; discriminate H.
           ++ intros (_ & res' & [= <-] & He'). congruence.
        -- intros m [H|[H|[]]]; discriminate H.
        -- discriminate.
      * split; [|split].
        -- split; [|auto]. intros _. split; [reflexivity|]. eauto.
        -- auto.
        -- discriminate.
    + simpl. split; [|split].
      * split.
        -- intros [H|[H|[]]]; discriminate H.
        -- intros (_ & res' & H & _). discriminate H.
      * intros m [H|[H|[]]]; discriminate H.
      * discriminate.
  - split; [|split].
    + split; [intros []|]. intros [H _]. discriminate H.
    + intros m [].
    + intros _ p e pw [].
Qed.

Lemma login_navigates_iff_witness :
  In (AuthForm.Navigate "/dashboard")
     (AuthForm.login sampleValidate sampleSignIn carolTyped).
Proof.
  apply (proj2 (proj1 (login_navigates_iff sampleValidate sampleSignIn carolTyped))).
  split; [reflexivity|].
  eexists. split; reflexivity.
Defined.

(** X21: the error toast of [login] always begins with the error that
    [signIn] reported. *)
Theorem loginErrorToast_keeps_error (e : string) :
  Js.startsWith (AuthForm.loginErrorToast e) e = true.
Proof.
  unfold AuthForm.loginErrorToast.
  destruct (eqs e "Email does not exist") eqn:H1.
  - apply eqs_true in H1. now subst e.
  - destruct (eqs e "Incorrect password") eqn:H2.
    + apply eqs_true in H2. now subst e.
    + apply startsWith_refl.
Qed.

(** X22: after [toggleVariant] the form shows the credentials fields, the
    variant is "login" or "register", the typed fields are as they were,
    and from then on two more toggles bring the same state back. *)
Theorem toggleVariant_cycle (st : AuthForm.State) :
  let st' := AuthForm.toggleVariant st in
  AuthForm.view st' = AuthForm.CredentialsForm
  /\ (AuthForm.variant st' = "login" \/ AuthForm.variant st' = "register")
  /\ (AuthForm.name st', AuthForm.email st', AuthForm.password st')
     = (AuthForm.name st, AuthForm.email st, AuthForm.password st)
  /\ AuthForm.toggleVariant (AuthForm.toggleVariant st') = st'.
Proof.
  cbv zeta. unfold AuthForm.toggleVariant, AuthForm.view. simpl.
  destruct (eqs (AuthForm.variant st) "login"); simpl; auto.
Qed.

(** X23: [handleEmailAuth] shows the "check your email" view after it
    exactly when that view was already shown or the e-mail field is not
    empty and [signIn] resolves without an error; with an empty e-mail
    field [signIn] is not called; in every case one toast is shown and no
    field but [isEmailSent] changes. *)
Theorem handleEmailAuth_sent_iff (signIn : string -> string -> option string
                                           -> AuthForm.Settled (option AuthForm.SignInResponse))
    (st : AuthForm.State) :
  let st' := fst (AuthForm.handleEmailAuth signIn st) in
  let effects := snd (AuthForm.handleEmailAuth signIn st) in
  (AuthForm.isEmailSent st' = true
   <-> AuthForm.isEmailSent st = true
       \/ (AuthForm.email st <> EmptyString
           /\ exists res, signIn "email" (AuthForm.email st) None = AuthForm.Resolved res
                          /\ AuthForm.errorOf res = None))
  /\ (AuthForm.email st = EmptyString
      -> forall p e pw, ~ In (AuthForm.SignIn p e pw) effects)
  /\ (exists m, List.filter
                  (fun x => match x with AuthForm.SignIn _ _ _ => false | _ => true end)
                  effects = [AuthForm.ToastError m]
                \/ List.filter
                     (fun x => match x with AuthForm.SignIn _ _ _ => false | _ => true end)
                     effects = [AuthForm.ToastSuccess m])
  /\ (AuthForm.name st', AuthForm.email st', AuthForm.password st',
      AuthForm.variant st', AuthForm.isEmailAuth st')
     = (AuthForm.name st, AuthForm.email st, AuthForm.password st,
        AuthForm.variant st, AuthForm.isEmailAuth st).
Proof.
  cbv zeta. unfold AuthForm.handleEmailAuth.
  destruct (AuthForm.email st) as [|c e] eqn:Hm; simpl.
  - split; [|split; [|split]].
    + split; [auto|]. intros [H|[H _]]; [exact H|now destruct H].
    + intros _ p e pw [H|[]]. discriminate H.
    + eauto.
    + now rewrite Hm.
  - destruct (signIn _ _ _) as [res|] eqn:Hs.
    + destruct (AuthForm.errorOf res) as [err|] eqn:He; simpl.
      * split; [|split; [|split]].
        -- split; [auto|]. intros [H|(_ & res' & [= <-] & He')]; [exact H|congruence].
        -- discriminate.
        -- eauto.
        -- now rewrite Hm.
      * split; [|split; [|split]].
        -- split; [|reflexivity]. intros _. right. split; [discriminate|eauto].
        -- discriminate.
        -- eauto.
        -- reflexivity.
    + simpl. split; [|split; [|split]].
      * split; [auto|]. intros [H|(_ & res' & H & _)]; [exact H|discriminate H].
      * discriminate.
      * eauto.
      * now rewrite Hm.
Qed.

Lemma handleEmailAuth_sent_iff_witness :
  AuthForm.isEmailSent (fst (AuthForm.handleEmailAuth sampleSignIn carolTyped)) = true.
Proof.
  apply (proj2 (proj1 (handleEmailAuth_sent_iff sampleSignIn carolTyped))).
  right. split; [discriminate|].
  eexists. split; reflexivity.
Defined.
